(** * YouTube video downloader (you_dlp.py): format menu, filename
      sanitizer and download orchestration

    A shallow embedding of the three pieces of original logic of
    [you_dlp.py]:

    - [sanitize_filename]  (lines 198-211),
    - [get_video_formats]  (lines 88-195, the part after [extract_info]),
    - [download_video]     (lines 214-366),

    together with the properties stated about them.

    Python strings are sequences of Unicode code points, so a [str] is a
    [list N] here; dictionaries produced by the extraction backend are
    records with one optional field per key that the code reads. *)

From stdpp Require Import base list gmap.
From Stdlib Require Import ZArith NArith Ascii Lia DecimalZ Sorted.
From Stdlib Require String.
Import String.StringSyntax.
Delimit Scope string_scope with string.
Bind Scope string_scope with String.string.

Open Scope Z_scope.

(** ** Python strings *)

Module PyStr.

(** A [str] is a list of code points. *)
Abbreviation pystr := (list N).

(** An ASCII literal of the source, as a [str]. *)
Definition lit (s : String.string) : pystr :=
  List.map N_of_ascii (String.list_ascii_of_string s).
Arguments lit s%_string.

(** [str.isspace] / the regular-expression class [\s] on [str] patterns:
    CPython's Unicode whitespace table. *)
Definition isspace (c : N) : bool :=
  (((9 <=? c) && (c <=? 13)) || ((28 <=? c) && (c <=? 32))
   || (c =? 133) || (c =? 160) || (c =? 5760)
   || ((8192 <=? c) && (c <=? 8202))
   || (c =? 8232) || (c =? 8233) || (c =? 8239) || (c =? 8287)
   || (c =? 12288))%N.

(** [s.lstrip()], [s.rstrip()], [s.strip()] without argument. *)
Fixpoint lstrip (s : pystr) : pystr :=
  match s with
  | [] => []
  | c :: r => if isspace c then lstrip r else s
  end.

Definition rstrip (s : pystr) : pystr := rev (lstrip (rev s)).

Definition strip (s : pystr) : pystr := rstrip (lstrip s).

(** [s.upper()] and [s.lower()]; only the ASCII letters are mapped, which
    is all that container names and the matched error phrases contain. *)
Definition upper_char (c : N) : N :=
  (if (97 <=? c) && (c <=? 122) then c - 32 else c)%N.

Definition lower_char (c : N) : N :=
  (if (65 <=? c) && (c <=? 90) then c + 32 else c)%N.

Definition upper (s : pystr) : pystr := List.map upper_char s.
Definition lower (s : pystr) : pystr := List.map lower_char s.

(** [s.startswith(p)] and the substring test [p in s]. *)
Fixpoint startswith (p s : pystr) : bool :=
  match p, s with
  | [], _ => true
  | _ :: _, [] => false
  | a :: p', b :: s' => (a =? b)%N && startswith p' s'
  end.

Fixpoint contains (p s : pystr) : bool :=
  startswith p s || match s with [] => false | _ :: s' => contains p s' end.

(** Truth value of an optional string: absent and empty are falsy. *)
Definition truthy_str (o : option pystr) : bool :=
  match o with Some (_ :: _) => true | _ => false end.

(** Truth value of an optional integer: absent and zero are falsy. *)
Definition truthy_int (o : option Z) : bool :=
  match o with Some z => negb (z =? 0) | None => false end.

(** Decimal digits of [str(n)] for an integer [n]. *)
Fixpoint digits (u : Decimal.uint) : pystr :=
  match u with
  | Decimal.Nil => []
  | Decimal.D0 r => 48%N :: digits r
  | Decimal.D1 r => 49%N :: digits r
  | Decimal.D2 r => 50%N :: digits r
  | Decimal.D3 r => 51%N :: digits r
  | Decimal.D4 r => 52%N :: digits r
  | Decimal.D5 r => 53%N :: digits r
  | Decimal.D6 r => 54%N :: digits r
  | Decimal.D7 r => 55%N :: digits r
  | Decimal.D8 r => 56%N :: digits r
  | Decimal.D9 r => 57%N :: digits r
  end.

(** [str(n)], as an f-string prints an [int]. *)
Definition str_of_int (n : Z) : pystr :=
  match Z.to_int n with
  | Decimal.Pos u => digits u
  | Decimal.Neg u => 45%N :: digits u
  end.

End PyStr.

Import PyStr.

(** ** The filename sanitizer *)

Module Sanitizer.

(** The character class of line 206: less-than, greater-than, colon,
    double quote, slash, backslash, bar, question mark, star, and the
    control characters 0x00-0x1f. *)
Definition illegal (c : N) : bool :=
  ((c =? 60) || (c =? 62) || (c =? 58) || (c =? 34) || (c =? 47)
   || (c =? 92) || (c =? 124) || (c =? 63) || (c =? 42)
   || (c <=? 31))%N.

(** [re.sub] of that class by the empty string. *)
Definition remove_illegal (s : pystr) : pystr :=
  List.filter (fun c => negb (illegal c)) s.

(** [re.sub(r'\s+', ' ', s)]: every maximal run of whitespace becomes one
    space.  [in_run] tells that the previous character was whitespace, so
    that the run it belongs to has been replaced already. *)
Fixpoint collapse (in_run : bool) (s : pystr) : pystr :=
  match s with
  | [] => []
  | c :: r =>
      if isspace c
      then (if in_run then collapse true r else 32%N :: collapse true r)
      else c :: collapse false r
  end.

Definition collapse_spaces (s : pystr) : pystr := collapse false s.

(** [sanitized[:200] if len(sanitized) > 200 else sanitized] *)
Definition truncate (s : pystr) : pystr :=
  if (200 <? length s)%nat then take 200 s else s.

Definition fallback : pystr := lit "video".

(** [sanitized or 'video']: the empty string is falsy. *)
Definition or_video (s : pystr) : pystr :=
  match s with [] => fallback | _ => s end.

(** The chain of lines 206-210. *)
Definition cleaned (title : pystr) : pystr :=
  truncate (strip (collapse_spaces (remove_illegal title))).

Definition sanitize_filename (title : pystr) : pystr :=
  match title with
  | [] => fallback
  | _ => or_video (cleaned title)
  end.

End Sanitizer.

Import Sanitizer.

(** ** Raw format descriptors and menu entries *)

(** One element of [result['formats']]: the keys that [get_video_formats]
    reads.  [None] is an absent key.  The numeric fields are integers (the
    model does not cover keys bound to [None] or to floating-point
    numbers). *)
Module Fmt.
Record t := mk {
  format_id : option pystr;
  vcodec : option pystr;
  acodec : option pystr;
  height : option Z;
  width : option Z;
  tbr : option Z;
  fps : option Z;
  abr : option Z;
  ext : option pystr;
  filesize : option Z;
  filesize_approx : option Z
}.
End Fmt.

(** One element of the list returned by [get_video_formats] (lines
    175-187). *)
Module Opt.
Record t := mk {
  format_id : pystr;
  resolution : pystr;
  has_video : bool;
  has_audio : bool;
  height : Z;
  ext : pystr;
  filesize : Z;
  merge_needed : bool;
  best_audio_id : option pystr;
  priority : Z;
  fps : Z
}.
End Opt.

(** ** Python's [max] and [sorted] *)

Module PyList.
Section Generic.
Context {A : Type}.

(** [max(l, key=key)]: the first element whose key is maximal. *)
Fixpoint max_from (key : A → Z) (best : A) (l : list A) : A :=
  match l with
  | [] => best
  | x :: r => if key best <? key x then max_from key x r
              else max_from key best r
  end.

(** [max(l, key=key) if l else None] *)
Definition max_by (key : A → Z) (l : list A) : option A :=
  match l with
  | [] => None
  | x :: r => Some (max_from key x r)
  end.

(** A stable sort: [before x y] tells that [x] may stay in front of
    [y].  Elements are inserted from the right, in front of the
    first element they may precede, so equal elements keep their
    order, as with Python's [sorted] and [list.sort]. *)
Fixpoint insert_by (before : A → A → bool) (x : A) (l : list A) : list A :=
  match l with
  | [] => [x]
  | y :: r => if before x y then x :: l else y :: insert_by before x r
  end.

Fixpoint sort_by (before : A → A → bool) (l : list A) : list A :=
  match l with
  | [] => []
  | x :: r => insert_by before x (sort_by before r)
  end.
End Generic.

(** Comparison of the 3-tuples used as sort keys. *)
Definition tuple_leb (a b : Z * Z * Z) : bool :=
  let '(a1, a2, a3) := a in
  let '(b1, b2, b3) := b in
  (a1 <? b1) || ((a1 =? b1) && ((a2 <? b2) || ((a2 =? b2) && (a3 <=? b3)))).

(** [sorted(l, key=key)] and [sorted(l, key=key, reverse=True)]. *)
Definition sorted_asc {A} (key : A → Z * Z * Z) (l : list A) : list A :=
  sort_by (fun x y => tuple_leb (key x) (key y)) l.

Definition sorted_desc {A} (key : A → Z * Z * Z) (l : list A) : list A :=
  sort_by (fun x y => tuple_leb (key y) (key x)) l.
End PyList.

Import PyList.

(** ** The format menu: [get_video_formats] *)

Module Formats.

Definition none : pystr := lit "none".

(** [x.get(k, 0)] and [x or 0] on an optional integer. *)
Definition or0 (o : option Z) : Z := default 0 o.

(** The filter of line 116: [f.get('acodec') != 'none' and
    f.get('vcodec') == 'none'].  An absent [acodec] differs from
    ['none']. *)
Definition is_audio_only (f : Fmt.t) : bool :=
  bool_decide (Fmt.acodec f ≠ Some none)
  && bool_decide (Fmt.vcodec f = Some none).

Definition audio_formats (formats : list Fmt.t) : list Fmt.t :=
  List.filter is_audio_only formats.

(** Line 117. *)
Definition best_audio_of (formats : list Fmt.t) : option Fmt.t :=
  max_by (fun x => or0 (Fmt.abr x)) (audio_formats formats).

(** The sort key of line 122. *)
Definition quality_key (x : Fmt.t) : Z * Z * Z :=
  (or0 (Fmt.height x), or0 (Fmt.width x), or0 (Fmt.tbr x)).

(** [f.get('filesize') or f.get('filesize_approx', 0)] *)
Definition filesize_of (f : Fmt.t) : Z :=
  if truthy_int (Fmt.filesize f) then or0 (Fmt.filesize f)
  else or0 (Fmt.filesize_approx f).

(** The markers in front of the three kinds of label, as the code points
    of the source text. *)
Definition mark_complete : pystr := [8218; 250; 214]%N.
Definition mark_merge : pystr := [63743; 252; 238; 209]%N.
Definition mark_audio : pystr := [63743; 252; 233; 181]%N.

(** [f"@{fps}fps" if fps else ""] *)
Definition fps_str (fps : option Z) : pystr :=
  if truthy_int fps then lit "@" ++ str_of_int (or0 fps) ++ lit "fps" else [].

(** [f" ({filesize//1024//1024}MB)" if filesize > 0 else ""] *)
Definition size_str (filesize : Z) : pystr :=
  if 0 <? filesize
  then lit " (" ++ str_of_int (filesize / 1024 / 1024) ++ lit "MB)"
  else [].

(** [audio_info] of lines 155-157. *)
Definition audio_info (best_audio : option Fmt.t) : pystr :=
  match best_audio with
  | Some b => lit " + " ++ str_of_int (default 128 (Fmt.abr b))
                ++ lit "kbps audio"
  | None => []
  end.

(** [f.get('abr', 'unknown')] printed in an f-string. *)
Definition abr_str (abr : option Z) : pystr :=
  match abr with
  | Some a => str_of_int a
  | None => lit "unknown"
  end.

(** The three keys of lines 150, 159 and 166. *)
Definition key_complete (height : Z) (fps : option Z) : pystr :=
  lit "complete_" ++ str_of_int height ++ lit "_" ++ str_of_int (or0 fps).

Definition key_video_merge (height : Z) (fps : option Z) : pystr :=
  lit "video_merge_" ++ str_of_int height ++ lit "_" ++ str_of_int (or0 fps).

Definition key_audio_only (abr : option Z) : pystr :=
  lit "audio_only_" ++ abr_str abr.

(** The body of the loop of lines 126-170 for one descriptor [f]: [None]
    when the iteration ends in [continue], otherwise [format_key] and
    the dictionary that lines 175-187 build. *)
Definition classify (best_audio : option Fmt.t) (show_all : bool)
    (f : Fmt.t) : option (pystr * Opt.t) :=
  if negb (truthy_str (Fmt.format_id f)) then None else
  let format_id := default [] (Fmt.format_id f) in
  let vcodec := default none (Fmt.vcodec f) in
  let acodec := default none (Fmt.acodec f) in
  let height := Fmt.height f in
  let fps := Fmt.fps f in
  let ext := default (lit "mp4") (Fmt.ext f) in
  let filesize := filesize_of f in
  let entry quality_desc merge_needed priority :=
    {| Opt.format_id := format_id;
       Opt.resolution := quality_desc;
       Opt.has_video := bool_decide (vcodec ≠ none);
       Opt.has_audio := bool_decide (acodec ≠ none);
       Opt.height := or0 height;
       Opt.ext := ext;
       Opt.filesize := filesize;
       Opt.merge_needed := merge_needed;
       Opt.best_audio_id :=
         match best_audio with
         | Some b => if merge_needed then Fmt.format_id b else None
         | None => None
         end;
       Opt.priority := priority;
       Opt.fps := or0 fps |} in
  if bool_decide (vcodec = none) && negb show_all then None else
  if bool_decide (vcodec ≠ none) && truthy_int height then
    if bool_decide (acodec ≠ none) then
      Some (key_complete (or0 height) fps,
            entry (str_of_int (or0 height) ++ lit "p" ++ fps_str fps
                     ++ lit " " ++ mark_complete ++ lit " Complete"
                     ++ size_str filesize)
                  false 1)
    else
      Some (key_video_merge (or0 height) fps,
            entry (str_of_int (or0 height) ++ lit "p" ++ fps_str fps
                     ++ lit " " ++ mark_merge ++ lit " Auto-merge"
                     ++ audio_info best_audio ++ size_str filesize)
                  true 2)
  else if bool_decide (acodec ≠ none) && show_all then
    Some (key_audio_only (Fmt.abr f),
          entry (mark_audio ++ lit " Audio Only - " ++ abr_str (Fmt.abr f)
                   ++ lit "kbps (" ++ upper ext ++ lit ")")
                false 3)
  else None.

(** The state of the loop: [formats] and [seen_formats]. *)
Definition loop_state : Type := list Opt.t * gset pystr.

(** One iteration (lines 126-187). *)
Definition loop_step (best_audio : option Fmt.t) (show_all : bool)
    (st : loop_state) (f : Fmt.t) : loop_state :=
  match classify best_audio show_all f with
  | None => st
  | Some (format_key, entry) =>
      if decide (format_key ∈ st.2) then st
      else (st.1 ++ [entry], {[format_key]} ∪ st.2)
  end.

(** The sort key of line 190. *)
Definition menu_key (x : Opt.t) : Z * Z * Z :=
  (Opt.priority x, - Opt.height x, - Opt.fps x).

(** Lines 112-191: the menu built from [result['formats']]. *)
Definition build_menu (formats : list Fmt.t) (show_all : bool) : list Opt.t :=
  let best_audio := best_audio_of formats in
  let sorted_formats := sorted_desc quality_key formats in
  let '(menu, _) :=
    fold_left (loop_step best_audio show_all) sorted_formats ([], ∅) in
  sorted_asc menu_key menu.

(** What [extract_info(url, download=False)] returns for this function:
    [None] when it raises, otherwise the [formats] key of the result
    ([None] when the result is empty or has no such key). *)
Definition extraction : Type := option (option (list Fmt.t)).

(** Lines 106-195.  Every exception ends in [return []]. *)
Definition get_video_formats (result : extraction) (show_all : bool)
    : list Opt.t :=
  match result with
  | None => []
  | Some None => []
  | Some (Some formats) => build_menu formats show_all
  end.

(** The loop once more, keeping next to each entry the descriptor it was
    built from and the [format_key] under which it was appended; used to
    state and prove what the menu holds. *)
Definition traced_state : Type := list (Fmt.t * pystr * Opt.t) * gset pystr.

Definition traced_step (best_audio : option Fmt.t) (show_all : bool)
    (st : traced_state) (f : Fmt.t) : traced_state :=
  match classify best_audio show_all f with
  | None => st
  | Some (format_key, entry) =>
      if decide (format_key ∈ st.2) then st
      else (st.1 ++ [(f, format_key, entry)], {[format_key]} ∪ st.2)
  end.

Definition traced_menu (formats : list Fmt.t) (show_all : bool)
    : list (Fmt.t * pystr * Opt.t) :=
  let '(menu, _) :=
    fold_left (traced_step (best_audio_of formats) show_all)
      (sorted_desc quality_key formats) ([], ∅) in
  sorted_asc (λ t, menu_key t.2) menu.

End Formats.

Import Formats.

(** ** The download orchestration: [download_video] *)

Module Download.

(** The options given to [yt_dlp.YoutubeDL].  [quiet] is [True],
    [progress_hooks] is [[progress_hook]] and [extractor_args] is the same
    constant in every call, so they are not recorded. *)
Record ydl_opts := {
  format : pystr;
  outtmpl : pystr;
  no_warnings : bool;
  postprocessors : list (pystr * pystr)
}.

(** The dictionary that yt_dlp hands to a progress hook. *)
Inductive hook_status :=
| Downloading (total_bytes total_bytes_estimate downloaded_bytes : option Z)
    (filename : option pystr)
| Finished
| OtherStatus.

(** How a call of [ydl.download] ends. *)
Inductive outcome :=
| Completed
| DownloadError (msg : pystr)
| OtherException (msg : pystr).

(** What the function does to the outside: the interface, the logger and
    the extraction backend.  The percentage shown while downloading is a
    floating-point number in the source; the two events that carry it keep
    the byte counts it is computed from. *)
Inductive event :=
| StError (msg : pystr)
| Markdown (msg : pystr)
| MarkdownPercent (filename : pystr) (downloaded total : Z)
| BarProgress (downloaded total : Z)
| BarFull
| LogError (msg : pystr)
| ExtractInfo (url : pystr)
| YdlDownload (opts : ydl_opts) (url : pystr).

(** The environment: the file system and the extraction backend. *)
Record world := {
  (** [os.makedirs(path, exist_ok=True)]: [None] when it returns, the text
      of the exception when it raises. *)
  makedirs : pystr → option pystr;
  (** [os.access(path, os.W_OK)] *)
  access_w : pystr → bool;
  (** [os.path.join] *)
  path_join : pystr → pystr → pystr;
  (** [extract_info(url, download=False)]: the text of the exception
      when it raises, otherwise the [title] key of the result. *)
  extract_title : pystr → pystr + option pystr;
  (** [ydl.download([url])]: the progress notifications and the end. *)
  ydl_download : ydl_opts → pystr → list hook_status * outcome
}.

(** [posixpath.join] for two components. *)
Definition posix_join (a b : pystr) : pystr :=
  if startswith (lit "/") b then b
  else match last a with
       | None => b
       | Some c => if (c =? 47)%N then a ++ b else a ++ lit "/" ++ b
       end.

(** Exceptions that [download_video] handles. *)
Inductive exn :=
| ExnDownloadError (msg : pystr)
| ExnOther (msg : pystr).

(** Computations that emit events and may raise. *)
Definition M (A : Type) : Type := list event * (exn + A).

#[export] Instance M_ret : MRet M := λ A x, ([], inr x).
#[export] Instance M_bind : MBind M := λ A B f m,
  match m with
  | (t, inl e) => (t, inl e)
  | (t, inr a) => let '(t', r) := f a in (t ++ t', r)
  end.

Definition emit (e : event) : M unit := ([e], inr tt).
Definition raise {A} (e : exn) : M A := ([], inl e).

(** [try: body except ...: handler] where the handlers catch everything. *)
Definition try_except {A} (body : M A) (handler : exn → list event * A)
    : list event * A :=
  match body with
  | (t, inr a) => (t, a)
  | (t, inl e) => let '(t', a) := handler e in (t ++ t', a)
  end.

Definition mark_error : pystr := [8218; 249; 229]%N.
Definition mark_down : pystr := [63743; 252; 236; 8226]%N.
Definition mark_done : pystr := [8218; 250; 214]%N.
Definition mark_party : pystr := [63743; 252; 233; 226]%N.

(** [filename.split('/')[-1]] *)
Fixpoint basename_from (acc s : pystr) : pystr :=
  match s with
  | [] => acc
  | c :: r => if (c =? 47)%N then basename_from [] r
              else basename_from (acc ++ [c]) r
  end.

Definition basename (s : pystr) : pystr := basename_from [] s.

(** Lines 234-250. *)
Definition progress_hook (d : hook_status) : list event :=
  match d with
  | Downloading total_bytes total_bytes_estimate downloaded_bytes filename =>
      let total := if truthy_int total_bytes then or0 total_bytes
                   else or0 total_bytes_estimate in
      let downloaded := or0 downloaded_bytes in
      let filename := basename (default [] filename) in
      if 0 <? total then
        [BarProgress downloaded total;
         MarkdownPercent filename downloaded total]
      else
        [Markdown (lit "**" ++ mark_down ++ lit " Downloading "
                     ++ filename ++ lit "...**")]
  | Finished =>
      [BarFull;
       Markdown (lit "**" ++ mark_done
                   ++ lit " Download complete! Processing...**")]
  | OtherStatus => []
  end.

(** [with yt_dlp.YoutubeDL(opts) as ydl: ydl.download([url])] *)
Definition download (w : world) (opts : ydl_opts) (url : pystr) : M unit :=
  let '(notes, out) := ydl_download w opts url in
  (YdlDownload opts url :: concat (List.map progress_hook notes),
   match out with
   | Completed => inr tt
   | DownloadError msg => inl (ExnDownloadError msg)
   | OtherException msg => inl (ExnOther msg)
   end).

(** Lines 56-85, the [title] entry of the result: [None] when the
    extraction raises. *)
Definition get_video_info (w : world) (url : pystr)
    : list event * option pystr :=
  match extract_title w url with
  | inr title =>
      ([ExtractInfo url], Some (default (lit "Unknown Title") title))
  | inl e =>
      ([ExtractInfo url; LogError (lit "Error getting video info: " ++ e)],
       None)
  end.

(** Lines 351-366. *)
Definition handler (e : exn) : list event * bool :=
  match e with
  | ExnDownloadError error_msg =>
      let low := lower error_msg in
      if contains (lit "requested format not available") low then
        ([StError (mark_error ++ lit " The selected quality is no longer available. Please try a different quality.")], false)
      else if contains (lit "video unavailable") low then
        ([StError (mark_error ++ lit " Video is unavailable or private.")], false)
      else if contains (lit "ffmpeg") low then
        ([StError (mark_error ++ lit " FFmpeg error during merging. Try downloading separately or install FFmpeg.")], false)
      else
        ([StError (mark_error ++ lit " Download error: " ++ error_msg)], false)
  | ExnOther msg =>
      ([LogError (lit "Download failed: " ++ msg);
        StError (mark_error ++ lit " Download failed: " ++ msg)], false)
  end.

(** Lines 261-349, the body of the [try]. *)
Definition download_body (w : world) (url : pystr) (format_info : Opt.t)
    (output_path safe_title merge_option : pystr) : M bool :=
  let format_id := Opt.format_id format_info in
  let merge_needed := Opt.merge_needed format_info in
  if merge_needed && bool_decide (merge_option = lit "merge") then
    let format_string := format_id ++ lit "+bestaudio/best" in
    let output_template :=
      path_join w output_path (safe_title ++ lit "_merged.%(ext)s") in
    let ydl_opts :=
      {| format := format_string;
         outtmpl := output_template;
         no_warnings := true;
         postprocessors := [(lit "FFmpegVideoConvertor", lit "mp4")] |} in
    download w ydl_opts url ;;
    emit (Markdown (lit "**" ++ mark_party
                      ++ lit " Download completed successfully!**")) ;;
    mret true
  else if merge_needed && bool_decide (merge_option = lit "separate") then
    emit (Markdown (lit "**" ++ mark_down
                      ++ lit " Downloading video and audio separately...**")) ;;
    let video_opts :=
      {| format := format_id;
         outtmpl := path_join w output_path (safe_title ++ lit "_video.%(ext)s");
         no_warnings := false;
         postprocessors := [] |} in
    download w video_opts url ;;
    let audio_opts :=
      {| format := lit "bestaudio";
         outtmpl := path_join w output_path (safe_title ++ lit "_audio.%(ext)s");
         no_warnings := false;
         postprocessors := [] |} in
    download w audio_opts url ;;
    emit (Markdown (lit "**" ++ mark_party
                      ++ lit " Video and audio downloaded separately!**")) ;;
    mret true
  else
    let ydl_opts :=
      {| format := format_id;
         outtmpl := path_join w output_path (safe_title ++ lit ".%(ext)s");
         no_warnings := true;
         postprocessors := [] |} in
    download w ydl_opts url ;;
    emit (Markdown (lit "**" ++ mark_party
                      ++ lit " Download completed successfully!**")) ;;
    mret true.

(** Lines 214-366: the events, in order, and the returned flag. *)
Definition download_video (w : world) (url : pystr) (format_info : Opt.t)
    (output_path merge_option : pystr) : list event * bool :=
  match makedirs w output_path with
  | Some e =>
      ([StError (mark_error ++ lit " Cannot create output directory: " ++ e)],
       false)
  | None =>
      if negb (access_w w output_path) then
        ([StError (mark_error ++ lit " No write permission for directory: "
                     ++ output_path)], false)
      else
        match get_video_info w url with
        | (t, None) =>
            (t ++ [StError (mark_error
                              ++ lit " Could not retrieve video information")],
             false)
        | (t, Some title) =>
            let safe_title := sanitize_filename title in
            let '(t', r) :=
              try_except
                (download_body w url format_info output_path safe_title
                   merge_option)
                handler in
            (t ++ t', r)
        end
  end.

(** The default value of the parameter [merge_option]. *)
Definition default_merge_option : pystr := lit "auto".

(** The events that reach the network: metadata extraction and
    downloads. *)
Definition is_network (e : event) : bool :=
  match e with
  | ExtractInfo _ | YdlDownload _ _ => true
  | _ => false
  end.

(** The download calls of a trace, in order. *)
Definition downloads (t : list event) : list ydl_opts :=
  omap (λ e, match e with YdlDownload o _ => Some o | _ => None end) t.

End Download.

Import Download.

(** ** Inputs used in the examples *)

Module Inputs.

(** A descriptor with the given id, codecs, height and audio bitrate. *)
Definition fmt (id v a : String.string) (h ab : option Z) : Fmt.t :=
  {| Fmt.format_id := Some (lit id);
     Fmt.vcodec := Some (lit v);
     Fmt.acodec := Some (lit a);
     Fmt.height := h;
     Fmt.width := None;
     Fmt.tbr := None;
     Fmt.fps := None;
     Fmt.abr := ab;
     Fmt.ext := None;
     Fmt.filesize := None;
     Fmt.filesize_approx := None |}.

(** The descriptor list of Scenario A. *)
Definition scenario_A : list Fmt.t :=
  [ fmt "18" "h264" "aac" (Some 360) None;
    fmt "137" "h264" "none" (Some 1080) None;
    fmt "140" "none" "aac" None (Some 128) ].

(** A descriptor with both codecs and no height. *)
Definition complete_no_height : Fmt.t := fmt "22" "h264" "aac" None None.

(** The merge-needed entry of Scenario A. *)
Definition entry_137 : Opt.t :=
  {| Opt.format_id := lit "137";
     Opt.resolution :=
       lit "1080p " ++ mark_merge ++ lit " Auto-merge + 128kbps audio";
     Opt.has_video := true;
     Opt.has_audio := false;
     Opt.height := 1080;
     Opt.ext := lit "mp4";
     Opt.filesize := 0;
     Opt.merge_needed := true;
     Opt.best_audio_id := Some (lit "140");
     Opt.priority := 2;
     Opt.fps := 0 |}.

(** A world in which everything succeeds. *)
Definition calm_world : world :=
  {| makedirs := λ _, None;
     access_w := λ _, true;
     path_join := posix_join;
     extract_title := λ _, inr (Some (lit "My: video / title?"));
     ydl_download := λ _ _, ([Finished], Completed) |}.

(** A world in which the destination directory cannot be created. *)
Definition locked_world : world :=
  {| makedirs := λ _, Some (lit "[Errno 13] Permission denied");
     access_w := λ _, false;
     path_join := posix_join;
     extract_title := λ _, inr (Some (lit "My: video / title?"));
     ydl_download := λ _ _, ([Finished], Completed) |}.

Definition some_url : pystr := lit "https://www.youtube.com/watch?v=aaaaaaaaaaa".
Definition some_dir : pystr := lit "/home/user/Downloads/YouTube_Downloads".

(** A title of 199 letters, a space and one more letter. *)
Definition long_title : pystr := repeat 97%N 199 ++ lit " b".

End Inputs.

Import Inputs.

(** ** Shapes of strings, used to state what the sanitizer returns *)

Module Shapes.

(** No character of the illegal class. *)
Definition legal (s : pystr) : Prop := Forall (λ c, illegal c = false) s.

(** Every whitespace character is a single space; [prev] tells that the
    character in front of the string is whitespace. *)
Fixpoint tidy (prev : bool) (s : pystr) : bool :=
  match s with
  | [] => true
  | c :: r =>
      if isspace c then (c =? 32)%N && negb prev && tidy true r
      else tidy false r
  end.

(** The first character, if any, is not whitespace. *)
Definition starts_clean (s : pystr) : bool :=
  match s with
  | [] => true
  | c :: _ => negb (isspace c)
  end.

End Shapes.

Import Shapes.

(** ** Vocabulary for the statements about the menu *)

Module MenuSpec.

(** The order of line 190, spelled out: rank class ascending, then height
    descending, then frame rate descending. *)
Definition menu_order (x y : Opt.t) : Prop :=
  Opt.priority x < Opt.priority y
  ∨ (Opt.priority x = Opt.priority y
     ∧ (Opt.height y < Opt.height x
        ∨ (Opt.height x = Opt.height y ∧ Opt.fps y ≤ Opt.fps x))).

(** Entry [e] is what the loop builds from descriptor [d] of [formats]. *)
Definition comes_from (formats : list Fmt.t) (show_all : bool)
    (d : Fmt.t) (e : Opt.t) : Prop :=
  d ∈ formats
  ∧ ∃ k, classify (best_audio_of formats) show_all d = Some (k, e).

(** The identity of an entry within its rank class: height and frame rate
    for the two video classes, the audio bitrate of the descriptor for the
    audio-only class. *)
Definition identity_key (d : Fmt.t) (e : Opt.t) : Z * (Z * Z + option Z) :=
  (Opt.priority e,
   if Opt.priority e =? 3 then inr (Fmt.abr d)
   else inl (Opt.height e, Opt.fps e)).

(** The two messages about the destination directory (lines 225 and
    230). *)
Definition directory_error (output_path msg : pystr) : Prop :=
  (∃ e, msg = mark_error ++ lit " Cannot create output directory: " ++ e)
  ∨ msg = mark_error ++ lit " No write permission for directory: "
            ++ output_path.

(** The base name of the output files: the sanitized title. *)
Definition base_name (title : option pystr) : pystr :=
  sanitize_filename (default (lit "Unknown Title") title).

(** The fields of an entry that Scenario A lists. *)
Definition summary (e : Opt.t) : pystr * Z * bool * option pystr :=
  (Opt.format_id e, Opt.priority e, Opt.merge_needed e, Opt.best_audio_id e).

(** What the loop maintains: every recorded entry was built from a
    descriptor of the input, the recorded keys are pairwise distinct and
    are exactly the keys seen. *)
Definition loop_inv (best : option Fmt.t) (show_all : bool)
    (l0 : list Fmt.t) (tr : list (Fmt.t * pystr * Opt.t))
    (seen : gset pystr) : Prop :=
  Forall (λ t, t.1.1 ∈ l0 ∧ classify best show_all t.1.1 = Some (t.1.2, t.2)) tr
  ∧ NoDup (tr.*1.*2)
  ∧ ∀ k, k ∈ seen ↔ k ∈ tr.*1.*2.

End MenuSpec.

Import MenuSpec.

(** ** URL validation: [is_valid_url] *)

Module Url.

(** The pieces of the five patterns of lines 29-33: literal text, an
    optional piece of text ([s?] and [(?:www\.)?]), and a run of exactly
    [n] characters of the class [[a-zA-Z0-9_-]]. *)
Inductive item :=
| Lit (s : pystr)
| Opt (s : pystr)
| IdChars (n : nat).

(** The class [[a-zA-Z0-9_-]]. *)
Definition id_char (c : N) : bool :=
  (((97 <=? c) && (c <=? 122)) || ((65 <=? c) && (c <=? 90))
   || ((48 <=? c) && (c <=? 57)) || (c =? 95) || (c =? 45))%N.

(** What is left of [s] after [n] characters of the class. *)
Fixpoint take_id (n : nat) (s : pystr) : option pystr :=
  match n with
  | O => Some s
  | S n' =>
      match s with
      | c :: r => if id_char c then take_id n' r else None
      | [] => None
      end
  end.

(** [re.match(pattern, s)] as a truth value: the pattern matches at the
    start of [s].  An optional piece is tried first and then skipped. *)
Fixpoint re_match (p : list item) (s : pystr) : bool :=
  match p with
  | [] => true
  | Lit l :: p' => startswith l s && re_match p' (drop (length l) s)
  | Opt l :: p' =>
      (startswith l s && re_match p' (drop (length l) s)) || re_match p' s
  | IdChars n :: p' =>
      match take_id n s with
      | Some r => re_match p' r
      | None => false
      end
  end.

(** [^https?://(?:<host>)?<site>([a-zA-Z0-9_-]{11})] *)
Definition pattern (host site : pystr) : list item :=
  [Lit (lit "http"); Opt (lit "s"); Lit (lit "://"); Opt host; Lit site;
   IdChars 11].

Definition patterns : list (list item) :=
  [ pattern (lit "www.") (lit "youtube.com/watch?v=");
    pattern (lit "www.") (lit "youtu.be/");
    pattern (lit "www.") (lit "youtube.com/embed/");
    pattern (lit "www.") (lit "youtube.com/v/");
    pattern (lit "m.") (lit "youtube.com/watch?v=") ].

(** Lines 19-36. *)
Definition is_valid_url (url : pystr) : bool :=
  match url with
  | [] => false
  | _ => existsb (λ p, re_match p (strip url)) patterns
  end.

End Url.

Import Url.

(** ** The merge tool probe: [check_ffmpeg] *)

Module Ffmpeg.

(** How [subprocess.run(['ffmpeg', '-version'], ...)] ends: it raises
    (time-out, file not found, anything else) or returns a code and the
    captured output. *)
Inductive run_result :=
| RunRaised
| RunDone (returncode : Z) (stdout : pystr).

(** [s.split('\n')[0]] *)
Fixpoint first_line (s : pystr) : pystr :=
  match s with
  | [] => []
  | c :: r => if (c =? 10)%N then [] else c :: first_line r
  end.

(** Lines 39-53. *)
Definition check_ffmpeg (r : run_result) : bool * pystr :=
  match r with
  | RunDone returncode stdout =>
      if returncode =? 0 then (true, first_line stdout)
      else (false, lit "FFmpeg not working properly")
  | RunRaised => (false, lit "FFmpeg not found")
  end.

End Ffmpeg.

Import Ffmpeg.

(** ** Video metadata: the dictionary of [get_video_info] *)

Module Info.

(** The keys of the extraction result that [get_video_info] reads. *)
Record raw := {
  raw_title : option pystr;
  raw_duration : option Z;
  raw_uploader : option pystr;
  raw_id : option pystr;
  raw_thumbnail : option pystr;
  raw_description : option pystr
}.

(** The dictionary of lines 74-82. *)
Record t := {
  title : pystr;
  duration : Z;
  uploader : pystr;
  id : pystr;
  thumbnail : pystr;
  description : pystr
}.

(** [info.get('description', '')[:200] + '...' if info.get('description')
    else ''] *)
Definition short_description (d : option pystr) : pystr :=
  if truthy_str d then take 200 (default [] d) ++ lit "..." else [].

Definition video_info (info : raw) : t :=
  {| title := default (lit "Unknown Title") (raw_title info);
     duration := default 0 (raw_duration info);
     uploader := default (lit "Unknown") (raw_uploader info);
     id := default [] (raw_id info);
     thumbnail := default [] (raw_thumbnail info);
     description := short_description (raw_description info) |}.

(** Lines 71-85: [None] when the extraction raises. *)
Definition get_video_info_dict (result : pystr + raw) : option t :=
  match result with
  | inr info => Some (video_info info)
  | inl _ => None
  end.

End Info.

(** ** The session: the selection and merge logic of [main] *)

Module Session.

(** Lines 511-514: the dictionary from labels to formats.  A Python
    dictionary keeps the position of a key that is assigned again and
    takes the new value. *)
Fixpoint dict_set (k : pystr) (v : Opt.t) (d : list (pystr * Opt.t))
    : list (pystr * Opt.t) :=
  match d with
  | [] => [(k, v)]
  | (k', v') :: r =>
      if decide (k = k') then (k, v) :: r else (k', v') :: dict_set k v r
  end.

Fixpoint dict_get (k : pystr) (d : list (pystr * Opt.t)) : option Opt.t :=
  match d with
  | [] => None
  | (k', v') :: r => if decide (k = k') then Some v' else dict_get k r
  end.

Definition format_options (formats : list Opt.t) : list (pystr * Opt.t) :=
  fold_left (λ d fmt, dict_set (Opt.resolution fmt) fmt d) formats [].

(** [list(format_options.keys())], the options of the quality selector
    (line 519). *)
Definition quality_options (formats : list Opt.t) : list pystr :=
  (format_options formats).*1.

(** Lines 453-462: the default merge behaviour; [selected] is what the
    selector over auto, merge and separate returns. *)
Definition merge_preference (ffmpeg_available : bool) (selected : pystr)
    : pystr :=
  if ffmpeg_available then selected else lit "separate".

(** The two options of the radio button of lines 542-546 and the one that
    is selected at first. *)
Definition merge_choices : list pystr :=
  [lit "Auto-merge into single file"; lit "Keep as separate files"].

Definition merge_choice_index (merge_preference : pystr) : nat :=
  if bool_decide (merge_preference = lit "merge") then 0%nat else 1%nat.

(** Lines 526-553: the merge option handed to [download_video];
    [merge_choice] is what the radio button returns. *)
Definition merge_option (ffmpeg_available : bool) (merge_preference : pystr)
    (selected_format : Opt.t) (merge_choice : pystr) : pystr :=
  if Opt.merge_needed selected_format then
    if ffmpeg_available then
      if contains (lit "Auto-merge") merge_choice then lit "merge"
      else lit "separate"
    else lit "separate"
  else merge_preference.


End Session.

Import Session.

(** ** Vocabulary for the statements about URLs *)

Module UrlSpec.

(** The texts that a pattern matches in full. *)
Fixpoint lang (p : list item) (u : pystr) : Prop :=
  match p with
  | [] => u = []
  | Lit l :: p' => ∃ q, u = l ++ q ∧ lang p' q
  | Opt l :: p' => (∃ q, u = l ++ q ∧ lang p' q) ∨ lang p' u
  | IdChars n :: p' =>
      ∃ i q, u = i ++ q ∧ length i = n
             ∧ Forall (λ c, id_char c = true) i ∧ lang p' q
  end.

(** The host prefixes and sites of the five patterns. *)
Definition sites : list (pystr * pystr) :=
  [ (lit "www.", lit "youtube.com/watch?v=");
    (lit "www.", lit "youtu.be/");
    (lit "www.", lit "youtube.com/embed/");
    (lit "www.", lit "youtube.com/v/");
    (lit "m.", lit "youtube.com/watch?v=") ].

(** [u] is http or https, an optional host prefix, a site, eleven
    identifier characters, and anything after them. *)
Definition accepted (u : pystr) : Prop :=
  ∃ prefix site scheme host id rest,
    (prefix, site) ∈ sites
    ∧ scheme ∈ [lit "http"; lit "https"]
    ∧ host ∈ [[]; prefix]
    ∧ length id = 11%nat
    ∧ Forall (λ c, id_char c = true) id
    ∧ u = scheme ++ lit "://" ++ host ++ site ++ id ++ rest.

End UrlSpec.

Import UrlSpec.

(** ** Vocabulary for further statements about the sanitizer *)

Module SanitizerSpec.

(** A character that the sanitizer may delete or replace: illegal, or
    whitespace. *)
Definition blank (c : N) : bool := illegal c || isspace c.

(** The characters of a string that are neither illegal nor whitespace,
    in order. *)
Definition visible (s : pystr) : pystr := List.filter (λ c, negb (blank c)) s.

End SanitizerSpec.

Import SanitizerSpec.

(** ** Vocabulary for further statements about the menu *)

Module MenuMore.

(** The characters of a printed integer: the minus sign and the digits. *)
Definition numeric (c : N) : bool :=
  ((c =? 45) || ((48 <=? c) && (c <=? 57)))%N.

(** [x] is at least as good as [y] in the order of line 122: height, then
    width, then bitrate. *)
Definition quality_ge (x y : Fmt.t) : Prop :=
  or0 (Fmt.height y) < or0 (Fmt.height x)
  ∨ (or0 (Fmt.height y) = or0 (Fmt.height x)
     ∧ (or0 (Fmt.width y) < or0 (Fmt.width x)
        ∨ (or0 (Fmt.width y) = or0 (Fmt.width x)
           ∧ or0 (Fmt.tbr y) ≤ or0 (Fmt.tbr x)))).

(** What the loop maintains about the descriptors [past] it has gone
    through: a key is seen as soon as a descriptor with that key has been
    met, and the descriptor recorded for a key is the first one with that
    key. *)
Definition first_inv (best : option Fmt.t) (show_all : bool)
    (past : list Fmt.t) (tr : list (Fmt.t * pystr * Opt.t))
    (seen : gset pystr) : Prop :=
  (∀ f k e, f ∈ past → classify best show_all f = Some (k, e) → k ∈ seen)
  ∧ Forall (λ t, ∃ p1 p2, past = p1 ++ t.1.1 :: p2
                 ∧ ∀ f e, f ∈ p1 → classify best show_all f ≠ Some (t.1.2, e))
      tr.

(** The text in front of the marker of a video label. *)
Definition video_head (h : Z) (fps : option Z) : pystr :=
  str_of_int h ++ lit "p" ++ fps_str fps ++ lit " ".

End MenuMore.

Import MenuMore.

(** ** Vocabulary for further statements about downloads *)

Module DownloadSpec.

(** An error message shown to the user. *)
Definition is_st_error (e : event) : bool :=
  match e with
  | StError _ => true
  | _ => false
  end.

(** The three kinds of option dictionaries that [download_video] builds,
    for an entry, a destination and a base name. *)
Definition plain_opts (w : world) (fi : Opt.t) (path base : pystr) : ydl_opts :=
  {| format := Opt.format_id fi;
     outtmpl := path_join w path (base ++ lit ".%(ext)s");
     no_warnings := true;
     postprocessors := [] |}.

Definition merged_opts (w : world) (fi : Opt.t) (path base : pystr) : ydl_opts :=
  {| format := Opt.format_id fi ++ lit "+bestaudio/best";
     outtmpl := path_join w path (base ++ lit "_merged.%(ext)s");
     no_warnings := true;
     postprocessors := [(lit "FFmpegVideoConvertor", lit "mp4")] |}.

Definition video_only_opts (w : world) (fi : Opt.t) (path base : pystr)
    : ydl_opts :=
  {| format := Opt.format_id fi;
     outtmpl := path_join w path (base ++ lit "_video.%(ext)s");
     no_warnings := false;
     postprocessors := [] |}.

Definition audio_only_opts (w : world) (path base : pystr) : ydl_opts :=
  {| format := lit "bestaudio";
     outtmpl := path_join w path (base ++ lit "_audio.%(ext)s");
     no_warnings := false;
     postprocessors := [] |}.

End DownloadSpec.

Import DownloadSpec.

(** * Properties *)

(** ** The sanitizer *)

Section SanitizerFacts.

Example sanitize_plain :
  sanitize_filename (lit "My: video / title?") = lit "My video title".
Proof. reflexivity. Qed.

Example sanitize_unicode_space :
  sanitize_filename (9 :: lit "  a" ++ [160; 8195] ++ lit "b  ")%N = lit "a b".
Proof. reflexivity. Qed.

Example sanitize_only_illegal :
  sanitize_filename (lit "<>:?*") = lit "video".
Proof. reflexivity. Qed.

Example sanitize_long :
  sanitize_filename long_title = repeat 97%N 199 ++ lit " ".
Proof. vm_compute. reflexivity. Qed.

End SanitizerFacts.

Section SanitizerLemmas.

Implicit Types (s t : pystr) (c : N) (b : bool).

Lemma space_is_legal : illegal 32 = false.
Proof. reflexivity. Qed.

Lemma legal_remove_illegal s : legal (remove_illegal s).
Proof.
  unfold legal, remove_illegal. induction s as [|c r IH]; simpl; [constructor|].
  destruct (illegal c) eqn:E; simpl; [exact IH|].
  constructor; [exact E | exact IH].
Qed.

Lemma remove_illegal_legal s : legal s → remove_illegal s = s.
Proof.
  unfold legal, remove_illegal. induction 1 as [|c r Hc _ IH]; simpl; [done|].
  rewrite Hc. simpl. by rewrite IH.
Qed.

Lemma legal_collapse b s : legal s → legal (collapse b s).
Proof.
  unfold legal. intros H. revert b.
  induction H as [|c r Hc _ IH]; intros b; simpl; [constructor|].
  destruct (isspace c); [destruct b|]; auto using space_is_legal.
Qed.

Lemma tidy_collapse b s : tidy b (collapse b s) = true.
Proof.
  revert b. induction s as [|c r IH]; intros b; simpl; [done|].
  destruct (isspace c) eqn:E.
  - destruct b; simpl; [apply IH|]. by rewrite IH.
  - simpl. rewrite E. apply IH.
Qed.

Lemma collapse_tidy b s : tidy b s = true → collapse b s = s.
Proof.
  revert b. induction s as [|c r IH]; intros b; simpl; [done|].
  destruct (isspace c) eqn:E.
  - intros H. apply andb_true_iff in H as [H Hr].
    apply andb_true_iff in H as [Hc Hb].
    apply N.eqb_eq in Hc. destruct b; [done|]. subst c. by rewrite IH.
  - intros H. by rewrite IH.
Qed.

Lemma tidy_weaken b s : tidy b s = true → tidy false s = true.
Proof.
  destruct s as [|c r]; simpl; [done|].
  destruct (isspace c); [|done].
  intros H. apply andb_true_iff in H as [H Hr].
  apply andb_true_iff in H as [Hc _]. by rewrite Hc, Hr.
Qed.

Lemma tidy_app_l b s t : tidy b (s ++ t) = true → tidy b s = true.
Proof.
  revert b. induction s as [|c r IH]; intros b; simpl; [done|].
  destruct (isspace c).
  - intros H. apply andb_true_iff in H as [H Hr]. rewrite H. simpl. eauto.
  - eauto.
Qed.

Lemma tidy_app_r b s t : tidy b (s ++ t) = true → tidy false t = true.
Proof.
  revert b. induction s as [|c r IH]; intros b; simpl.
  - apply tidy_weaken.
  - destruct (isspace c).
    + intros H. apply andb_true_iff in H as [_ Hr]. eauto.
    + eauto.
Qed.

Lemma tidy_space b s c : tidy b s = true → c ∈ s → isspace c = true → c = 32%N.
Proof.
  intros Ht Hin Hc. revert b Ht.
  induction Hin as [c r|c d r _ IH]; intros b; simpl.
  - rewrite Hc. intros H. apply andb_true_iff in H as [H _].
    apply andb_true_iff in H as [H _]. by apply N.eqb_eq in H.
  - destruct (isspace d).
    + intros H. apply andb_true_iff in H as [_ H]. eauto.
    + eauto.
Qed.


Lemma lstrip_split s : ∃ ws, s = ws ++ lstrip s ∧ Forall (λ c, isspace c = true) ws.
Proof.
  induction s as [|c r (ws & Hr & Hws)]; simpl.
  - by exists [].
  - destruct (isspace c) eqn:E.
    + exists (c :: ws). split; [simpl; congruence | by constructor].
    + by exists [].
Qed.

Lemma rstrip_split s : ∃ ws, s = rstrip s ++ ws ∧ Forall (λ c, isspace c = true) ws.
Proof.
  destruct (lstrip_split (rev s)) as (ws & Hr & Hws).
  exists (rev ws). split.
  - unfold rstrip. rewrite <- rev_app_distr, <- Hr. by rewrite rev_involutive.
  - apply Forall_forall. intros c Hc. rewrite Forall_forall in Hws.
    apply Hws. apply list_elem_of_In. apply in_rev.
    by apply list_elem_of_In.
Qed.

Lemma starts_clean_lstrip s : starts_clean (lstrip s) = true.
Proof.
  induction s as [|c r IH]; simpl; [done|].
  destruct (isspace c) eqn:E; [exact IH|]. simpl. by rewrite E.
Qed.

Lemma lstrip_clean s : starts_clean s = true → lstrip s = s.
Proof.
  destruct s as [|c r]; simpl; [done|]. by destruct (isspace c).
Qed.

Lemma starts_clean_app_l s t : starts_clean (s ++ t) = true → starts_clean s = true.
Proof. by destruct s. Qed.

(** The last character of [rstrip s] is not whitespace. *)
Lemma last_rstrip s c : last (rstrip s) = Some c → isspace c = false.
Proof.
  unfold rstrip. generalize (starts_clean_lstrip (rev s)).
  destruct (lstrip (rev s)) as [|d r]; simpl; [done|].
  rewrite last_snoc. intros H [= <-]. by apply negb_true_iff.
Qed.

Lemma rstrip_clean s :
  (∀ c, last s = Some c → isspace c = false) → rstrip s = s.
Proof.
  intros H. unfold rstrip.
  rewrite lstrip_clean; [apply rev_involutive|].
  destruct s as [|c r] using rev_ind; [done|].
  rewrite rev_app_distr. simpl. rewrite (H c); [done|]. apply last_snoc.
Qed.

Lemma last_strip s c : last (strip s) = Some c → isspace c = false.
Proof. apply last_rstrip. Qed.

Lemma starts_clean_strip s : starts_clean (strip s) = true.
Proof.
  unfold strip. destruct (rstrip_split (lstrip s)) as (ws & Hs & _).
  apply (starts_clean_app_l _ ws). rewrite <- Hs. apply starts_clean_lstrip.
Qed.

Lemma strip_clean s :
  starts_clean s = true → (∀ c, last s = Some c → isspace c = false) →
  strip s = s.
Proof.
  intros H1 H2. unfold strip. rewrite (lstrip_clean _ H1). by apply rstrip_clean.
Qed.

Lemma legal_strip s : legal s → legal (strip s).
Proof.
  unfold legal, strip. intros H.
  destruct (lstrip_split s) as (w1 & H1 & _).
  destruct (rstrip_split (lstrip s)) as (w2 & H2 & _).
  rewrite H1, H2 in H. apply Forall_app in H as [_ H].
  by apply Forall_app in H as [H _].
Qed.

Lemma tidy_strip s : tidy false s = true → tidy false (strip s) = true.
Proof.
  unfold strip. intros H.
  destruct (lstrip_split s) as (w1 & H1 & _).
  destruct (rstrip_split (lstrip s)) as (w2 & H2 & _).
  rewrite H1 in H. apply tidy_app_r in H. rewrite H2 in H.
  by apply tidy_app_l in H.
Qed.

Lemma truncate_length s : (length (truncate s) ≤ 200)%nat.
Proof.
  unfold truncate. destruct (200 <? length s)%nat eqn:E.
  - rewrite length_take. lia.
  - apply Nat.ltb_ge in E. lia.
Qed.

Lemma truncate_short s : (length s ≤ 200)%nat → truncate s = s.
Proof.
  intros H. unfold truncate.
  destruct (200 <? length s)%nat eqn:E; [|done]. apply Nat.ltb_lt in E. lia.
Qed.

Lemma truncate_prefix s : ∃ t, s = truncate s ++ t.
Proof.
  unfold truncate. destruct (200 <? length s)%nat.
  - exists (drop 200 s). by rewrite take_drop.
  - exists []. by rewrite app_nil_r.
Qed.

Lemma legal_truncate s : legal s → legal (truncate s).
Proof.
  unfold legal. intros H. destruct (truncate_prefix s) as (t & Ht).
  rewrite Ht in H. by apply Forall_app in H as [H _].
Qed.

Lemma tidy_truncate s : tidy false s = true → tidy false (truncate s) = true.
Proof.
  intros H. destruct (truncate_prefix s) as (t & Ht).
  rewrite Ht in H. by apply tidy_app_l in H.
Qed.

Lemma starts_clean_truncate s :
  starts_clean s = true → starts_clean (truncate s) = true.
Proof.
  intros H. destruct (truncate_prefix s) as (t & Ht).
  rewrite Ht in H. by apply starts_clean_app_l in H.
Qed.

(** What the chain of substitutions returns, in one statement. *)
Lemma cleaned_shape s :
  legal (cleaned s) ∧ tidy false (cleaned s) = true
  ∧ starts_clean (cleaned s) = true ∧ (length (cleaned s) ≤ 200)%nat.
Proof.
  unfold cleaned, collapse_spaces. repeat split.
  - apply legal_truncate, legal_strip, legal_collapse, legal_remove_illegal.
  - apply tidy_truncate, tidy_strip, tidy_collapse.
  - apply starts_clean_truncate, starts_clean_strip.
  - apply truncate_length.
Qed.

Lemma fallback_shape :
  legal fallback ∧ tidy false fallback = true
  ∧ starts_clean fallback = true ∧ (length fallback ≤ 200)%nat.
Proof.
  repeat split; try reflexivity; [|simpl; lia].
  unfold legal. by repeat constructor.
Qed.

Lemma sanitize_filename_or_video s : sanitize_filename s = or_video (cleaned s).
Proof. by destruct s. Qed.

Lemma sanitize_shape s :
  legal (sanitize_filename s) ∧ tidy false (sanitize_filename s) = true
  ∧ starts_clean (sanitize_filename s) = true
  ∧ (length (sanitize_filename s) ≤ 200)%nat
  ∧ sanitize_filename s ≠ [].
Proof.
  rewrite sanitize_filename_or_video.
  destruct (cleaned_shape s) as (H1 & H2 & H3 & H4).
  destruct fallback_shape as (F1 & F2 & F3 & F4).
  destruct (cleaned s) as [|c r]; simpl; by repeat split.
Qed.

Lemma strip_length s : (length (strip s) ≤ length s)%nat.
Proof.
  unfold strip.
  destruct (lstrip_split s) as (w1 & H1 & _).
  destruct (rstrip_split (lstrip s)) as (w2 & H2 & _).
  rewrite H1 at 2. rewrite H2 at 2. rewrite !length_app. lia.
Qed.

Lemma illegal_false c :
  illegal c = false →
  (31 < c)%N ∧ c ∉ [60; 62; 58; 34; 47; 92; 124; 63; 42]%N.
Proof.
  unfold illegal. intros H.
  repeat (apply orb_false_iff in H as [H ?]).
  repeat match goal with
         | E : (_ =? _)%N = false |- _ => apply N.eqb_neq in E
         | E : (_ <=? _)%N = false |- _ => apply N.leb_gt in E
         end.
  split; [lia|]. rewrite !not_elem_of_cons.
  repeat split; try done. apply not_elem_of_nil.
Qed.

(** A string in the shape of an output that does not end in whitespace is
    returned unchanged. *)
Lemma sanitize_fixed t :
  legal t → tidy false t = true → starts_clean t = true →
  (length t ≤ 200)%nat → t ≠ [] →
  (∀ c, last t = Some c → isspace c = false) →
  sanitize_filename t = t.
Proof.
  intros Hl Ht Hs Hn Hne Hlast.
  rewrite sanitize_filename_or_video. unfold cleaned, collapse_spaces.
  rewrite (remove_illegal_legal _ Hl), (collapse_tidy _ _ Ht).
  rewrite (strip_clean _ Hs Hlast), (truncate_short _ Hn).
  by destruct t.
Qed.

(** Applied to one of its outputs, the sanitizer only strips it. *)
Lemma sanitize_output s :
  sanitize_filename (sanitize_filename s) = or_video (strip (sanitize_filename s)).
Proof.
  destruct (sanitize_shape s) as (Hl & Ht & Hs & Hn & Hne).
  rewrite (sanitize_filename_or_video (sanitize_filename s)).
  unfold cleaned, collapse_spaces.
  rewrite (remove_illegal_legal _ Hl), (collapse_tidy _ _ Ht).
  rewrite truncate_short; [done|].
  pose proof (strip_length (sanitize_filename s)). lia.
Qed.

Lemma last_or_video_strip s : last (or_video (strip s)) ≠ Some 32%N.
Proof.
  destruct (strip s) as [|c r] eqn:E; simpl; [by vm_compute|].
  rewrite <- E. intros H. by apply last_strip in H.
Qed.

(** A sanitized name that does not end in a space is a fixed point. *)
Lemma sanitize_clean_end_fixed s :
  last (sanitize_filename s) ≠ Some 32%N →
  sanitize_filename (sanitize_filename s) = sanitize_filename s.
Proof.
  intros H. destruct (sanitize_shape s) as (Hl & Ht & Hs & Hn & Hne).
  apply sanitize_fixed; try done.
  intros c Hc. destruct (isspace c) eqn:E; [|done].
  exfalso. apply H. rewrite Hc. f_equal.
  apply (tidy_space false (sanitize_filename s)); try done.
  by apply last_Some_elem_of.
Qed.

(** Titles whose cleaned form is not cut give such a name. *)
Lemma sanitize_twice_short s :
  (length (strip (collapse_spaces (remove_illegal s))) ≤ 200)%nat →
  sanitize_filename (sanitize_filename s) = sanitize_filename s.
Proof.
  intros H. apply sanitize_clean_end_fixed.
  rewrite sanitize_filename_or_video. unfold cleaned.
  rewrite (truncate_short _ H). apply last_or_video_strip.
Qed.

(** A title made of illegal characters and whitespace only cleans to the
    empty string, hence gives the fallback name. *)
Lemma lstrip_collapse_blank b s :
  Forall (λ c, isspace c = true) s → lstrip (collapse b s) = [].
Proof.
  intros H. revert b. induction H as [|c r Hc _ IH]; intros b; simpl; [done|].
  rewrite Hc. destruct b; simpl; apply IH.
Qed.

Lemma sanitize_blank s :
  Forall (λ c, illegal c || isspace c = true) s →
  sanitize_filename s = fallback.
Proof.
  intros H. rewrite sanitize_filename_or_video.
  unfold cleaned, collapse_spaces, strip.
  rewrite lstrip_collapse_blank; [done|].
  unfold remove_illegal. induction H as [|c r Hc _ IH]; simpl; [constructor|].
  destruct (illegal c); simpl in *; [done|]. by constructor.
Qed.

End SanitizerLemmas.

(** C7.  Whatever the title, the sanitized name holds no control character
    (code points 0 to 31) and none of the nine characters less-than,
    greater-than, colon, double quote, slash, backslash, bar, question mark
    and star; it has at most 200 characters; the empty title gives the
    name video, and so does every title whose cleaned form is empty.  The
    function is total: it is defined on every list of code points. *)
Theorem sanitize_filename_safe (title : pystr) :
  Forall (λ c, (31 < c)%N ∧ c ∉ [60; 62; 58; 34; 47; 92; 124; 63; 42]%N)
    (sanitize_filename title)
  ∧ (length (sanitize_filename title) ≤ 200)%nat
  ∧ sanitize_filename [] = lit "video"
  ∧ sanitize_filename title =
      match cleaned title with [] => lit "video" | c :: r => c :: r end.
Proof.
  destruct (sanitize_shape title) as (Hl & _ & _ & Hn & _).
  repeat split; try done.
  - eapply Forall_impl; [exact Hl|]. intros c Hc. by apply illegal_false.
  - rewrite sanitize_filename_or_video. by destruct (cleaned title).
Qed.

(** C4, as stated, fails: a title of 199 letters, a space and a letter is
    cut after the space, and the second pass strips that space. *)
Lemma sanitize_not_idempotent :
  sanitize_filename (sanitize_filename long_title) ≠ sanitize_filename long_title.
Proof. vm_compute. discriminate. Qed.

(** C4, amended.  Sanitizing twice gives the same name as sanitizing once
    exactly when the name obtained the first time does not end in a
    space. *)
Theorem sanitize_twice (s : pystr) :
  sanitize_filename (sanitize_filename s) = sanitize_filename s
  ↔ last (sanitize_filename s) ≠ Some 32%N.
Proof.
  split.
  - intros H. rewrite <- H, sanitize_output. apply last_or_video_strip.
  - apply sanitize_clean_end_fixed.
Qed.

(** ** Python's [max] and [sorted] *)

Section PyListFacts.

Context {A : Type}.
Implicit Types (l : list A) (key : A → Z) (before : A → A → bool).

(** [max_from] returns the first element of maximal key. *)
Lemma max_from_split key l pre x mid :
  Forall (λ a, key a < key x) pre →
  Forall (λ a, key a ≤ key x) mid →
  ∃ front back,
    pre ++ x :: mid ++ l = front ++ max_from key x l :: back
    ∧ Forall (λ a, key a < key (max_from key x l)) front
    ∧ Forall (λ a, key a ≤ key (max_from key x l)) back.
Proof.
  revert pre x mid. induction l as [|y r IH]; intros pre x mid Hpre Hmid; simpl.
  - exists pre, mid. by rewrite app_nil_r.
  - destruct (key x <? key y) eqn:E.
    + apply Z.ltb_lt in E.
      destruct (IH (pre ++ x :: mid) y []) as (front & back & Heq & Hf & Hb).
      * apply Forall_app. split.
        -- eapply Forall_impl; [exact Hpre|]. simpl. lia.
        -- constructor; [done|]. eapply Forall_impl; [exact Hmid|]. simpl. lia.
      * constructor.
      * exists front, back. split; [|done]. rewrite <- Heq.
        by rewrite <- app_assoc.
    + apply Z.ltb_ge in E.
      destruct (IH pre x (mid ++ [y])) as (front & back & Heq & Hf & Hb).
      * done.
      * apply Forall_app. split; [done|]. by repeat constructor.
      * exists front, back. split; [|done]. rewrite <- Heq.
        by rewrite <- app_assoc.
Qed.

Lemma max_by_split key l b :
  max_by key l = Some b →
  ∃ front back,
    l = front ++ b :: back
    ∧ Forall (λ a, key a < key b) front
    ∧ Forall (λ a, key a ≤ key b) back.
Proof.
  destruct l as [|x r]; simpl; [done|]. intros [= <-].
  destruct (max_from_split key r [] x []) as (front & back & Heq & Hf & Hb);
    [constructor..|].
  exists front, back. by rewrite <- Heq.
Qed.

Lemma max_by_is_Some key l : l ≠ [] → is_Some (max_by key l).
Proof. destruct l; [done|]. by eexists. Qed.

(** Sorting rearranges, and keeps nothing else. *)
Lemma insert_by_perm before x l : insert_by before x l ≡ₚ x :: l.
Proof.
  induction l as [|y r IH]; simpl; [done|].
  destruct (before x y); [done|]. rewrite IH. apply Permutation_swap.
Qed.

Lemma sort_by_perm before l : sort_by before l ≡ₚ l.
Proof.
  induction l as [|x r IH]; simpl; [done|].
  rewrite insert_by_perm. by rewrite IH.
Qed.

Lemma elem_of_sort_by before l x : x ∈ sort_by before l ↔ x ∈ l.
Proof. by rewrite sort_by_perm. Qed.

(** For a total and transitive [before], the result is sorted: every
    element may precede all the elements behind it. *)
Lemma insert_by_sorted before x l :
  (∀ a b, before a b = false → before b a = true) →
  (∀ a b c, before a b = true → before b c = true → before a c = true) →
  StronglySorted (λ a b, before a b = true) l →
  StronglySorted (λ a b, before a b = true) (insert_by before x l).
Proof.
  intros Htot Htrans. induction 1 as [|y r Hr IH Hy]; simpl.
  - repeat constructor.
  - destruct (before x y) eqn:E.
    + constructor; [by constructor|]. constructor; [done|].
      eapply Forall_impl; [exact Hy|]. simpl. eauto.
    + constructor; [done|].
      rewrite insert_by_perm. constructor; [auto|done].
Qed.

Lemma sort_by_sorted before l :
  (∀ a b, before a b = false → before b a = true) →
  (∀ a b c, before a b = true → before b c = true → before a c = true) →
  StronglySorted (λ a b, before a b = true) (sort_by before l).
Proof.
  intros Htot Htrans. induction l as [|x r IH]; simpl; [constructor|].
  by apply insert_by_sorted.
Qed.

End PyListFacts.

(** Sorting commutes with a projection when the order only looks at the
    projected values. *)
Lemma sort_by_fmap {A B} (f : A → B) (before : B → B → bool) (l : list A) :
  f <$> sort_by (λ a b, before (f a) (f b)) l = sort_by before (f <$> l).
Proof.
  induction l as [|x r IH]; [done|].
  rewrite fmap_cons. cbn [sort_by]. rewrite <- IH.
  generalize (sort_by (λ a b, before (f a) (f b)) r). intros s.
  induction s as [|y s IHs]; [done|].
  rewrite fmap_cons. cbn [insert_by].
  destruct (before (f x) (f y)); [done|]. by rewrite fmap_cons, IHs.
Qed.

Lemma tuple_leb_spec (a b : Z * Z * Z) :
  tuple_leb a b = true ↔
  a.1.1 < b.1.1 ∨ (a.1.1 = b.1.1 ∧ (a.1.2 < b.1.2 ∨ (a.1.2 = b.1.2 ∧ a.2 ≤ b.2))).
Proof.
  destruct a as [[a1 a2] a3], b as [[b1 b2] b3]. unfold tuple_leb. simpl.
  rewrite !orb_true_iff, !andb_true_iff, !orb_true_iff, !andb_true_iff.
  rewrite !Z.ltb_lt, !Z.eqb_eq, Z.leb_le. tauto.
Qed.

Lemma tuple_leb_total (a b : Z * Z * Z) :
  tuple_leb a b = false → tuple_leb b a = true.
Proof.
  intros H. apply tuple_leb_spec.
  destruct (tuple_leb_spec a b) as [_ H2].
  destruct (decide (a.1.1 < b.1.1 ∨ (a.1.1 = b.1.1 ∧ (a.1.2 < b.1.2 ∨ (a.1.2 = b.1.2 ∧ a.2 ≤ b.2))))) as [Hd|Hd].
  - rewrite H2 in H; done.
  - lia.
Qed.

Lemma tuple_leb_trans (a b c : Z * Z * Z) :
  tuple_leb a b = true → tuple_leb b c = true → tuple_leb a c = true.
Proof. rewrite !tuple_leb_spec. lia. Qed.

(** ** The format menu *)

Section MenuLemmas.

Implicit Types (formats l : list Fmt.t) (d f : Fmt.t) (e : Opt.t) (k : pystr).
Implicit Types (tr : list (Fmt.t * pystr * Opt.t)) (seen : gset pystr).

(** The traced loop runs the loop of the source. *)
Lemma traced_fold best show_all l tr seen :
  fold_left (loop_step best show_all) l (tr.*2, seen)
  = ((fold_left (traced_step best show_all) l (tr, seen)).1.*2,
     (fold_left (traced_step best show_all) l (tr, seen)).2).
Proof.
  revert tr seen. induction l as [|f r IH]; intros tr seen; [done|].
  cbn [fold_left]. unfold loop_step at 2, traced_step at 2 4.
  destruct (classify best show_all f) as [[k e]|]; [|apply IH].
  cbn [fst snd]. destruct (decide (k ∈ seen)); [apply IH|].
  rewrite <- IH. by rewrite fmap_app.
Qed.

Lemma traced_menu_entries formats show_all :
  (traced_menu formats show_all).*2 = build_menu formats show_all.
Proof.
  unfold traced_menu, build_menu.
  pose proof (traced_fold (best_audio_of formats) show_all
                (sorted_desc quality_key formats) [] ∅) as H.
  destruct (fold_left (traced_step _ _) _ _) as [tr seen].
  cbn [fmap list_fmap] in H. rewrite H. cbn [fst snd].
  unfold sorted_asc.
  apply (sort_by_fmap snd (λ x y, tuple_leb (menu_key x) (menu_key y))).
Qed.

Lemma traced_step_inv best show_all l0 tr seen f :
  f ∈ l0 → loop_inv best show_all l0 tr seen →
  loop_inv best show_all l0 (traced_step best show_all (tr, seen) f).1
    (traced_step best show_all (tr, seen) f).2.
Proof.
  intros Hf (Hsrc & Hnd & Hseen). unfold traced_step.
  destruct (classify best show_all f) as [[k e]|] eqn:E; [|done].
  cbn [fst snd]. destruct (decide (k ∈ seen)) as [Hin|Hnin]; [done|].
  cbn [fst snd]. repeat split.
  - apply Forall_app. split; [done|]. by repeat constructor.
  - rewrite !fmap_app. cbn. apply NoDup_app. repeat split; [done| |].
    + intros x Hx ->%list_elem_of_singleton. by apply Hnin, Hseen.
    + apply NoDup_singleton.
  - rewrite !fmap_app. cbn. rewrite elem_of_union, elem_of_app.
    rewrite elem_of_singleton, list_elem_of_singleton, Hseen. tauto.
  - rewrite !fmap_app. cbn. rewrite elem_of_union, elem_of_app.
    rewrite elem_of_singleton, list_elem_of_singleton, Hseen. tauto.
Qed.

Lemma traced_fold_inv best show_all l0 l tr seen :
  (∀ f, f ∈ l → f ∈ l0) → loop_inv best show_all l0 tr seen →
  loop_inv best show_all l0
    (fold_left (traced_step best show_all) l (tr, seen)).1
    (fold_left (traced_step best show_all) l (tr, seen)).2.
Proof.
  revert tr seen. induction l as [|f r IH]; intros tr seen Hl Hinv; [done|].
  cbn [fold_left].
  pose proof (traced_step_inv best show_all l0 tr seen f) as Hstep.
  destruct (traced_step best show_all (tr, seen) f) as [tr' seen'].
  apply IH.
  - intros g Hg. apply Hl. by right.
  - apply Hstep; [apply Hl; by left | done].
Qed.

(** The traced menu: sources and distinct keys. *)
Lemma traced_menu_inv formats show_all :
  Forall (λ t, comes_from formats show_all t.1.1 t.2
               ∧ classify (best_audio_of formats) show_all t.1.1
                 = Some (t.1.2, t.2))
    (traced_menu formats show_all)
  ∧ NoDup ((traced_menu formats show_all).*1.*2).
Proof.
  unfold traced_menu.
  pose proof (traced_fold_inv (best_audio_of formats) show_all formats
                (sorted_desc quality_key formats) [] ∅) as H.
  destruct (fold_left (traced_step _ _) _ _) as [tr seen].
  destruct H as (Hsrc & Hnd & _).
  - intros f. unfold sorted_desc. by rewrite elem_of_sort_by.
  - repeat split; [constructor | constructor | set_solver | set_solver].
  - cbn [fst snd] in *. unfold sorted_asc. split.
    + rewrite sort_by_perm. eapply Forall_impl; [exact Hsrc|].
      intros [[d k] e] [H1 H2]. cbn in *. unfold comes_from. eauto.
    + by rewrite sort_by_perm.
Qed.

(** Every entry of the menu was built from a descriptor of the input. *)
Lemma menu_entry_source formats show_all e :
  e ∈ build_menu formats show_all → ∃ d, comes_from formats show_all d e.
Proof.
  rewrite <- traced_menu_entries. intros ([[d k] e'] & -> & Hin)%list_elem_of_fmap.
  destruct (traced_menu_inv formats show_all) as [H _].
  rewrite Forall_forall in H. destruct (H _ Hin) as [H1 _]. by exists d.
Qed.

End MenuLemmas.

Section ClassifyLemmas.

Implicit Types (formats : list Fmt.t) (d : Fmt.t) (e : Opt.t) (k : pystr).
Implicit Types (best : option Fmt.t) (show_all : bool).

(** The three ways in which the loop body builds an entry. *)
Lemma classify_Some best show_all d k e :
  classify best show_all d = Some (k, e) →
  truthy_str (Fmt.format_id d) = true
  ∧ Opt.height e = or0 (Fmt.height d)
  ∧ Opt.fps e = or0 (Fmt.fps d)
  ∧ Opt.has_video e = bool_decide (default none (Fmt.vcodec d) ≠ none)
  ∧ Opt.has_audio e = bool_decide (default none (Fmt.acodec d) ≠ none)
  ∧ ((default none (Fmt.vcodec d) ≠ none ∧ truthy_int (Fmt.height d) = true
      ∧ default none (Fmt.acodec d) ≠ none
      ∧ k = key_complete (or0 (Fmt.height d)) (Fmt.fps d)
      ∧ Opt.priority e = 1 ∧ Opt.merge_needed e = false)
     ∨ (default none (Fmt.vcodec d) ≠ none ∧ truthy_int (Fmt.height d) = true
        ∧ default none (Fmt.acodec d) = none
        ∧ k = key_video_merge (or0 (Fmt.height d)) (Fmt.fps d)
        ∧ Opt.priority e = 2 ∧ Opt.merge_needed e = true
        ∧ Opt.best_audio_id e = best ≫= Fmt.format_id)
     ∨ ((default none (Fmt.vcodec d) = none ∨ truthy_int (Fmt.height d) = false)
        ∧ default none (Fmt.acodec d) ≠ none ∧ show_all = true
        ∧ k = key_audio_only (Fmt.abr d)
        ∧ Opt.priority e = 3 ∧ Opt.merge_needed e = false)).
Proof.
  unfold classify.
  destruct (truthy_str (Fmt.format_id d)); cbn [negb]; [|done].
  destruct (bool_decide (default none (Fmt.vcodec d) = none) && negb show_all)
    eqn:E0; [done|].
  destruct (bool_decide (default none (Fmt.vcodec d) ≠ none)
            && truthy_int (Fmt.height d)) eqn:E1.
  - apply andb_true_iff in E1 as [Hv%bool_decide_eq_true Hh].
    destruct (bool_decide (default none (Fmt.acodec d) ≠ none)) eqn:E2.
    + apply bool_decide_eq_true in E2. intros [= <- <-]. cbn.
      repeat split; try done. left. by repeat split.
    + apply bool_decide_eq_false in E2. intros [= <- <-]. cbn.
      repeat split; try done. right. left.
      repeat split; try done; try (by destruct best).
      all: by destruct (decide (default none (Fmt.acodec d) = none)).
  - destruct (bool_decide (default none (Fmt.acodec d) ≠ none) && show_all)
      eqn:E2; [|done].
    apply andb_true_iff in E2 as [Ha%bool_decide_eq_true ->].
    intros [= <- <-]. cbn. repeat split; try done. right. right.
    repeat split; try done.
    apply andb_false_iff in E1 as [E1%bool_decide_eq_false|E1]; [left|by right].
    by destruct (decide (default none (Fmt.vcodec d) = none)).
Qed.

(** Two entries with the same identity were built under the same key. *)
Lemma classify_identity best show_all d1 d2 k1 k2 e1 e2 :
  classify best show_all d1 = Some (k1, e1) →
  classify best show_all d2 = Some (k2, e2) →
  identity_key d1 e1 = identity_key d2 e2 → k1 = k2.
Proof.
  intros H1 H2. unfold identity_key.
  apply classify_Some in H1 as (_ & Hh1 & Hf1 & _ & _ & C1).
  apply classify_Some in H2 as (_ & Hh2 & Hf2 & _ & _ & C2).
  intros [= Hp Hid]. revert Hid.
  destruct C1 as [C1|[C1|C1]], C2 as [C2|[C2|C2]];
    destruct_and?; subst k1 k2;
    repeat match goal with H : Opt.priority _ = _ |- _ => rewrite H in * end;
    try done; cbn; intros [=].
  - unfold key_complete. congruence.
  - unfold key_video_merge. congruence.
  - congruence.
Qed.

End ClassifyLemmas.

(** *** Scenario A *)

(** C1, as stated, fails: the menu of Scenario A does not start with the
    entry for id 137. *)
Lemma scenario_A_not_in_stated_order :
  summary <$> get_video_formats (Some (Some scenario_A)) false
  ≠ [(lit "137", 2, true, Some (lit "140")); (lit "18", 1, false, None)].
Proof. vm_compute. discriminate. Qed.

(** C1, amended.  For the descriptors of Scenario A without audio-only
    entries, the menu has two entries: first the one for id 18 with rank
    class 1 and no merge, then the one for id 137 with rank class 2, merge
    needed and paired audio id 140. *)
Theorem scenario_A_menu :
  summary <$> get_video_formats (Some (Some scenario_A)) false
  = [(lit "18", 1, false, None); (lit "137", 2, true, Some (lit "140"))].
Proof. vm_compute. reflexivity. Qed.

(** Scenario B: with audio-only formats shown, the audio entry for id 140
    comes last, in rank class 3. *)
Example scenario_B_menu :
  summary <$> get_video_formats (Some (Some scenario_A)) true
  = [(lit "18", 1, false, None); (lit "137", 2, true, Some (lit "140"));
     (lit "140", 3, false, None)].
Proof. vm_compute. reflexivity. Qed.

(** Scenario C: no formats, empty menu. *)
Example scenario_C_menu (show_all : bool) :
  get_video_formats (Some (Some [])) show_all = []
  ∧ get_video_formats (Some None) show_all = []
  ∧ get_video_formats None show_all = [].
Proof. done. Qed.

(** *** Rank classes *)

(** C3, as stated, fails: a descriptor with both codecs and no height,
    listed with audio-only formats shown, enters the menu in rank
    class 3. *)
Lemma complete_without_height_ranked_third :
  default none (Fmt.vcodec complete_no_height) ≠ none
  ∧ default none (Fmt.acodec complete_no_height) ≠ none
  ∧ ∃ e, get_video_formats (Some (Some [complete_no_height])) true = [e]
         ∧ comes_from [complete_no_height] true complete_no_height e
         ∧ Opt.priority e = 3.
Proof.
  split; [by vm_compute|]. split; [by vm_compute|].
  eexists. split; [vm_compute; reflexivity|].
  split; [|reflexivity].
  split; [apply list_elem_of_here|]. eexists. vm_compute. reflexivity.
Qed.

(** C3, amended.  An entry of the menu built from a descriptor whose two
    codecs differ from none and whose height is known (present and not
    zero) has rank class 1. *)
Theorem complete_with_height_ranked_first
    (formats : list Fmt.t) (show_all : bool) (d : Fmt.t) (e : Opt.t) :
  e ∈ get_video_formats (Some (Some formats)) show_all →
  comes_from formats show_all d e →
  default none (Fmt.vcodec d) ≠ none →
  default none (Fmt.acodec d) ≠ none →
  truthy_int (Fmt.height d) = true →
  Opt.priority e = 1.
Proof.
  intros _ [_ [k Hk]] Hv Ha Hh.
  apply classify_Some in Hk as (_ & _ & _ & _ & _ & [C|[C|C]]);
    destruct_and?; try done.
  destruct_or?; congruence.
Qed.

Lemma complete_with_height_ranked_first_witness :
  ∃ e, head (get_video_formats (Some (Some scenario_A)) false) = Some e
       ∧ Opt.priority e = 1.
Proof.
  eexists. split; [vm_compute; reflexivity|].
  apply (complete_with_height_ranked_first scenario_A false
           (fmt "18" "h264" "aac" (Some 360) None)).
  - vm_compute. apply list_elem_of_here.
  - split; [apply list_elem_of_here|]. eexists. vm_compute. reflexivity.
  - by vm_compute.
  - by vm_compute.
  - reflexivity.
Defined.

(** *** The paired audio format *)

(** C5.  When the input holds an audio-only descriptor, the audio-only
    descriptors split around one of them, [b], whose bitrate is above
    that of all the earlier ones and at least that of all the later ones,
    and every merge-needed entry of the menu carries the format id of
    [b]. *)
Theorem merge_entries_share_best_audio
    (formats : list Fmt.t) (show_all : bool) (a : Fmt.t) :
  a ∈ formats → is_audio_only a = true →
  ∃ front b back,
    audio_formats formats = front ++ b :: back
    ∧ Forall (λ x, or0 (Fmt.abr x) < or0 (Fmt.abr b)) front
    ∧ Forall (λ x, or0 (Fmt.abr x) ≤ or0 (Fmt.abr b)) back
    ∧ ∀ e, e ∈ get_video_formats (Some (Some formats)) show_all →
           Opt.merge_needed e = true →
           Opt.best_audio_id e = Fmt.format_id b.
Proof.
  intros Ha Haud.
  assert (audio_formats formats ≠ []) as Hne.
  { intros E. assert (a ∈ audio_formats formats) as Hin.
    { unfold audio_formats. apply list_elem_of_In, filter_In.
      split; [by apply list_elem_of_In | done]. }
    rewrite E in Hin. by apply not_elem_of_nil in Hin. }
  destruct (max_by_is_Some (λ x, or0 (Fmt.abr x)) _ Hne) as [b Hb].
  destruct (max_by_split _ _ _ Hb) as (front & back & Heq & Hf & Hbk).
  exists front, b, back. repeat split; try done.
  intros e He Hm. cbn in He.
  destruct (menu_entry_source _ _ _ He) as (d & _ & k & Hk).
  apply classify_Some in Hk as (_ & _ & _ & _ & _ & [C|[C|C]]);
    destruct_and?; try congruence.
  unfold best_audio_of in *.
  match goal with H : Opt.best_audio_id e = _ |- _ => rewrite H end.
  by rewrite Hb.
Qed.

Lemma merge_entries_share_best_audio_witness :
  ∃ front b back,
    audio_formats scenario_A = front ++ b :: back
    ∧ Forall (λ x, or0 (Fmt.abr x) < or0 (Fmt.abr b)) front
    ∧ Forall (λ x, or0 (Fmt.abr x) ≤ or0 (Fmt.abr b)) back
    ∧ ∀ e, e ∈ get_video_formats (Some (Some scenario_A)) false →
           Opt.merge_needed e = true →
           Opt.best_audio_id e = Fmt.format_id b.
Proof.
  apply (merge_entries_share_best_audio scenario_A false
           (fmt "140" "none" "aac" None (Some 128))).
  - unfold scenario_A. apply list_elem_of_further, list_elem_of_further.
    apply list_elem_of_here.
  - reflexivity.
Defined.

(** *** Order and identities of the menu *)

Lemma menu_key_order (x y : Opt.t) :
  tuple_leb (menu_key x) (menu_key y) = true ↔ menu_order x y.
Proof. rewrite tuple_leb_spec. unfold menu_key, menu_order. simpl. lia. Qed.

Lemma StronglySorted_impl {A} (R S : A → A → Prop) (l : list A) :
  (∀ a b, R a b → S a b) → StronglySorted R l → StronglySorted S l.
Proof.
  intros HRS. induction 1 as [|x r _ IH Hx]; constructor; [done|].
  eapply Forall_impl; [exact Hx|]. simpl. auto.
Qed.

Lemma build_menu_sorted (formats : list Fmt.t) (show_all : bool) :
  StronglySorted menu_order (build_menu formats show_all).
Proof.
  unfold build_menu. destruct (fold_left _ _ _) as [menu seen].
  apply (StronglySorted_impl
           (λ a b, tuple_leb (menu_key a) (menu_key b) = true)).
  - intros a b. apply menu_key_order.
  - unfold sorted_asc. apply sort_by_sorted.
    + intros a b. apply tuple_leb_total.
    + intros a b c. apply tuple_leb_trans.
Qed.

Lemma NoDup_fmap_inj_on {A B} (f : A → B) (l : list A) (x y : A) :
  NoDup (f <$> l) → x ∈ l → y ∈ l → f x = f y → x = y.
Proof.
  induction l as [|z r IH]; [by intros _ ?%not_elem_of_nil|].
  rewrite fmap_cons, NoDup_cons, !elem_of_cons.
  intros [Hz Hr] [->|Hx] [->|Hy] Hf; auto.
  - exfalso. apply Hz. rewrite Hf. by apply list_elem_of_fmap_2.
  - exfalso. apply Hz. rewrite <- Hf. by apply list_elem_of_fmap_2.
Qed.

(** C6.  The menu is sorted by rank class ascending, then height
    descending, then frame rate descending; and its entries were built from
    descriptors of the input whose identities (rank class with height and
    frame rate, or rank class with audio bitrate for the audio-only class)
    are pairwise distinct. *)
Theorem menu_sorted_and_distinct (formats : list Fmt.t) (show_all : bool) :
  StronglySorted menu_order (get_video_formats (Some (Some formats)) show_all)
  ∧ ∃ srcs,
      Forall2 (comes_from formats show_all) srcs
        (get_video_formats (Some (Some formats)) show_all)
      ∧ NoDup (zip_with identity_key srcs
                 (get_video_formats (Some (Some formats)) show_all)).
Proof.
  cbn [get_video_formats]. split; [apply build_menu_sorted|].
  destruct (traced_menu_inv formats show_all) as [Hsrc Hnd].
  rewrite <- traced_menu_entries.
  exists ((traced_menu formats show_all).*1.*1). split.
  - rewrite <- list_fmap_compose. apply Forall2_fmap.
    apply Forall_Forall2_diag. eapply Forall_impl; [exact Hsrc|].
    by intros t [H _].
  - rewrite <- list_fmap_compose, zip_with_fmap_l, zip_with_fmap_r.
    rewrite zip_with_diag. apply NoDup_fmap_2_strong.
    + intros t1 t2 H1 H2 Hid.
      rewrite <- list_fmap_compose in Hnd.
      apply (NoDup_fmap_inj_on _ _ _ _ Hnd H1 H2). cbn.
      rewrite Forall_forall in Hsrc.
      destruct (Hsrc _ H1) as [_ C1], (Hsrc _ H2) as [_ C2].
      exact (classify_identity _ _ _ _ _ _ _ _ C1 C2 Hid).
    + apply (NoDup_fmap_1 (λ t, t.1.2)).
      by rewrite <- list_fmap_compose in Hnd.
Qed.

(** *** Descriptors without a height *)



(** ** The download orchestration *)

Example entry_137_in_scenario_A :
  last (get_video_formats (Some (Some scenario_A)) false) = Some entry_137.
Proof. vm_compute. reflexivity. Qed.

Section DownloadLemmas.

Implicit Types (w : world) (url path opt : pystr) (fi : Opt.t).

(** The download calls of one [download]. *)
Lemma downloads_download w opts url :
  downloads (download w opts url).1 = [opts].
Proof.
  unfold download. destruct (ydl_download w opts url) as [notes out]. cbn.
  f_equal. induction notes as [|n r IH]; [done|].
  cbn. unfold downloads in *. rewrite omap_app, IH, app_nil_r.
  by destruct n as [t te dl fn| |]; cbn; repeat case_match.
Qed.

Lemma download_completed w opts url :
  (ydl_download w opts url).2 = Completed →
  (download w opts url).2 = inr ().
Proof.
  unfold download. destruct (ydl_download w opts url) as [notes out]. cbn.
  by intros ->.
Qed.

(** Past the directory checks and the metadata, the function is the [try]
    block. *)
Lemma download_video_body w url fi path opt title :
  makedirs w path = None → access_w w path = true →
  extract_title w url = inr title →
  download_video w url fi path opt
  = (ExtractInfo url
       :: (try_except (download_body w url fi path (base_name title) opt)
             handler).1,
     (try_except (download_body w url fi path (base_name title) opt)
        handler).2).
Proof.
  intros Hm Ha Ht. unfold download_video, get_video_info.
  rewrite Hm, Ha, Ht. cbn [negb]. unfold base_name.
  by destruct (try_except _ _).
Qed.

Lemma downloads_handler e : downloads (handler e).1 = [].
Proof. destruct e; cbn; [|done]. by repeat case_match. Qed.

End DownloadLemmas.

(** C8.  When the destination directory cannot be created, or exists but
    is not writable, the only event of the download operation is one
    error message about the directory, the operation returns failure, and
    no metadata extraction or download is attempted. *)
Theorem directory_failure_only_event
    (w : world) (url : pystr) (fi : Opt.t) (path opt : pystr) :
  makedirs w path ≠ None ∨ access_w w path = false →
  ∃ msg,
    download_video w url fi path opt = ([StError msg], false)
    ∧ directory_error path msg
    ∧ List.filter is_network (download_video w url fi path opt).1 = [].
Proof.
  intros H. unfold download_video, directory_error.
  destruct (makedirs w path) as [e|] eqn:Em.
  - eexists. split; [done|]. split; [|done]. left. by exists e.
  - destruct H as [H|H]; [done|]. rewrite H. cbn [negb].
    eexists. split; [done|]. split; [|done]. by right.
Qed.

Lemma directory_failure_only_event_witness :
  (makedirs locked_world some_dir ≠ None
   ∨ access_w locked_world some_dir = false)
  ∧ ∃ msg,
      download_video locked_world some_url entry_137 some_dir
        default_merge_option = ([StError msg], false)
      ∧ directory_error some_dir msg
      ∧ List.filter is_network
          (download_video locked_world some_url entry_137 some_dir
             default_merge_option).1 = [].
Proof.
  assert (makedirs locked_world some_dir ≠ None
          ∨ access_w locked_world some_dir = false) as H.
  { right. reflexivity. }
  split; [exact H|].
  exact (directory_failure_only_event locked_world some_url entry_137
           some_dir default_merge_option H).
Defined.

(** C9.  For a merge-needed entry and a merge option that is neither merge
    nor separate (the default, auto, is one), the operation issues exactly
    one download call: the entry's own format id, written to the base name
    with the extension placeholder, with no post-processor; and it returns
    success when that download completes. *)
Theorem other_policy_plain_download
    (w : world) (url : pystr) (fi : Opt.t) (path opt : pystr)
    (title : option pystr) :
  Opt.merge_needed fi = true →
  opt ≠ lit "merge" → opt ≠ lit "separate" →
  makedirs w path = None → access_w w path = true →
  extract_title w url = inr title →
  let opts :=
    {| format := Opt.format_id fi;
       outtmpl := path_join w path (base_name title ++ lit ".%(ext)s");
       no_warnings := true;
       postprocessors := [] |} in
  downloads (download_video w url fi path opt).1 = [opts]
  ∧ ((ydl_download w opts url).2 = Completed →
     (download_video w url fi path opt).2 = true).
Proof.
  intros Hm Ho1 Ho2 Hd Ha Ht opts.
  rewrite (download_video_body _ _ _ _ _ _ Hd Ha Ht). cbn [fst snd].
  unfold download_body. rewrite Hm. cbn [andb].
  rewrite (bool_decide_eq_false_2 _ Ho1), (bool_decide_eq_false_2 _ Ho2).
  fold opts. unfold mbind, M_bind, emit, mret, M_ret, try_except.
  pose proof (downloads_download w opts url) as Hdl.
  pose proof (download_completed w opts url) as Hc.
  destruct (download w opts url) as [t [ex|[]]]; cbn in *.
  - pose proof (downloads_handler ex) as Hh.
    destruct (handler ex) as [t' r]. cbn in *. split.
    + unfold downloads in *. by rewrite omap_app, Hdl, Hh.
    + intros E. by specialize (Hc E).
  - split; [|done]. unfold downloads in *. by rewrite omap_app, Hdl.
Qed.

Lemma other_policy_plain_download_witness :
  downloads
    (download_video calm_world some_url entry_137 some_dir
       default_merge_option).1
  = [ {| format := lit "137";
         outtmpl := some_dir ++ lit "/My video title.%(ext)s";
         no_warnings := true;
         postprocessors := [] |} ]
  ∧ (download_video calm_world some_url entry_137 some_dir
       default_merge_option).2 = true.
Proof.
  assert (default_merge_option ≠ lit "merge") as Ho1 by (by vm_compute).
  assert (default_merge_option ≠ lit "separate") as Ho2 by (by vm_compute).
  pose proof (other_policy_plain_download calm_world some_url entry_137
                some_dir default_merge_option
                (Some (lit "My: video / title?"))
                eq_refl Ho1 Ho2 eq_refl eq_refl eq_refl) as [H1 H2].
  split; [exact H1 | apply H2; reflexivity].
Defined.

(** C2, as stated, fails: with the keep-separate option the audio stream
    of the entry for id 137 is requested as bestaudio, although the entry
    carries the paired audio id 140. *)
Lemma separate_ignores_paired_audio :
  Opt.merge_needed entry_137 = true
  ∧ Opt.best_audio_id entry_137 = Some (lit "140")
  ∧ format <$> downloads
                 (download_video calm_world some_url entry_137 some_dir
                    (lit "separate")).1
    = [lit "137"; lit "bestaudio"].
Proof. repeat split. Qed.

(** C2, amended.  For a merge-needed entry and the keep-separate option,
    the video stream is requested by the entry's format id and, once it has
    completed, the audio stream is requested with the generic selector
    bestaudio, whatever paired audio id the entry carries. *)
Theorem separate_audio_is_bestaudio
    (w : world) (url : pystr) (fi : Opt.t) (path : pystr)
    (title : option pystr) :
  Opt.merge_needed fi = true →
  makedirs w path = None → access_w w path = true →
  extract_title w url = inr title →
  let video_opts :=
    {| format := Opt.format_id fi;
       outtmpl := path_join w path (base_name title ++ lit "_video.%(ext)s");
       no_warnings := false;
       postprocessors := [] |} in
  let audio_opts :=
    {| format := lit "bestaudio";
       outtmpl := path_join w path (base_name title ++ lit "_audio.%(ext)s");
       no_warnings := false;
       postprocessors := [] |} in
  (ydl_download w video_opts url).2 = Completed →
  downloads (download_video w url fi path (lit "separate")).1
  = [video_opts; audio_opts].
Proof.
  intros Hm Hd Ha Ht video_opts audio_opts Hv.
  rewrite (download_video_body _ _ _ _ _ _ Hd Ha Ht). cbn [fst snd].
  unfold download_body. rewrite Hm. cbn [andb].
  rewrite bool_decide_eq_false_2; [|by vm_compute].
  rewrite bool_decide_eq_true_2; [|done].
  fold video_opts audio_opts.
  unfold mbind, M_bind, emit, mret, M_ret, try_except.
  pose proof (downloads_download w video_opts url) as Hdv.
  pose proof (download_completed w video_opts url Hv) as Hcv.
  pose proof (downloads_download w audio_opts url) as Hda.
  destruct (download w video_opts url) as [tv rv]. cbn in Hcv. subst rv.
  destruct (download w audio_opts url) as [ta [ex|[]]]; cbn in *.
  - pose proof (downloads_handler ex) as Hh.
    destruct (handler ex) as [t' r]. cbn in *.
    unfold downloads in *. rewrite !omap_app, Hdv, Hda, Hh. done.
  - unfold downloads in *. rewrite !omap_app, Hdv, Hda. done.
Qed.

Lemma separate_audio_is_bestaudio_witness :
  format <$> downloads
               (download_video calm_world some_url entry_137 some_dir
                  (lit "separate")).1
  = [lit "137"; lit "bestaudio"].
Proof.
  pose proof (separate_audio_is_bestaudio calm_world some_url entry_137
                some_dir (Some (lit "My: video / title?"))
                eq_refl eq_refl eq_refl eq_refl eq_refl) as H.
  rewrite H. reflexivity.
Defined.


(** * Further properties of the code *)

(** ** URL validation *)

Section UrlLemmas.

Implicit Types (s t u l : pystr) (p : list item).

Lemma startswith_spec l s : startswith l s = true ↔ ∃ q, s = l ++ q.
Proof.
  revert s. induction l as [|a l IH]; intros s; simpl.
  - split; [by exists s | done].
  - destruct s as [|b s].
    + split; [done | by intros [q Hq]].
    + rewrite andb_true_iff, N.eqb_eq, IH. split.
      * intros [-> [q ->]]. by exists q.
      * intros [q [= -> ->]]. split; [done | by exists q].
Qed.

Lemma take_id_spec n s r :
  take_id n s = Some r ↔
  ∃ i, s = i ++ r ∧ length i = n ∧ Forall (λ c, id_char c = true) i.
Proof.
  revert s. induction n as [|n IH]; intros s; simpl.
  - split.
    + intros [= ->]. by exists [].
    + intros (i & -> & Hi & _). by destruct i.
  - destruct s as [|c s].
    + split; [done|]. intros (i & Hs & Hi & _). by destruct i.
    + destruct (id_char c) eqn:E.
      * rewrite IH. split.
        -- intros (i & -> & <- & Hf). exists (c :: i). by repeat constructor.
        -- intros (i & Hs & Hi & Hf). destruct i as [|c' i]; [done|].
           injection Hs as <- ->. injection Hi as Hi.
           apply Forall_cons in Hf as [_ Hf]. by exists i.
      * split; [done|]. intros (i & Hs & Hi & Hf).
        destruct i as [|c' i]; [done|]. injection Hs as <- ->.
        apply Forall_cons in Hf as [Hc _]. congruence.
Qed.

(** The matcher accepts exactly the texts that start with a text of the
    pattern. *)
Lemma re_match_lang p s :
  re_match p s = true ↔ ∃ u rest, s = u ++ rest ∧ lang p u.
Proof.
  revert s. induction p as [|[l|l|n] p IH]; intros s; simpl.
  - split; [by exists [], s | done].
  - rewrite andb_true_iff, startswith_spec, IH. split.
    + intros [[q ->] (u & rest & Hq & Hu)]. rewrite drop_app_length in Hq.
      subst q. exists (l ++ u), rest. rewrite <- app_assoc. eauto.
    + intros (u & rest & -> & q & -> & Hq). rewrite <- app_assoc.
      split; [by eexists|]. rewrite drop_app_length. by exists q, rest.
  - rewrite orb_true_iff, andb_true_iff, startswith_spec, !IH. split.
    + intros [[[q ->] (u & rest & Hq & Hu)]|(u & rest & -> & Hu)].
      * rewrite drop_app_length in Hq. subst q.
        exists (l ++ u), rest. rewrite <- app_assoc. eauto.
      * exists u, rest. eauto.
    + intros (u & rest & -> & [(q & -> & Hq)|Hu]).
      * left. rewrite <- app_assoc. split; [by eexists|].
        rewrite drop_app_length. by exists q, rest.
      * right. by exists u, rest.
  - destruct (take_id n s) as [r|] eqn:E.
    + apply take_id_spec in E as (i & -> & Hi & Hf). rewrite IH. split.
      * intros (u & rest & -> & Hu). exists (i ++ u), rest.
        rewrite <- app_assoc. split; [done|]. by exists i, u.
      * intros (u & rest & Hs & i' & q & -> & Hi' & Hf' & Hq).
        rewrite <- app_assoc in Hs.
        apply app_inj_1 in Hs as [-> ->]; [|congruence]. by exists q, rest.
    + split; [done|].
      intros (u & rest & -> & i & q & -> & Hi & Hf & Hq).
      assert (take_id n ((i ++ q) ++ rest) = Some (q ++ rest)) as E'.
      { apply take_id_spec. exists i. by rewrite <- app_assoc. }
      congruence.
Qed.

Lemma lang_pattern prefix site u :
  lang (pattern prefix site) u ↔
  ∃ scheme host id,
    scheme ∈ [lit "http"; lit "https"] ∧ host ∈ [[]; prefix]
    ∧ length id = 11%nat ∧ Forall (λ c, id_char c = true) id
    ∧ u = scheme ++ lit "://" ++ host ++ site ++ id.
Proof.
  unfold pattern. cbn [lang]. split.
  - intros (q1 & -> & H).
    assert (∀ scheme q, lang [Lit (lit "://"); Opt prefix; Lit site; IdChars 11] q →
       scheme ∈ [lit "http"; lit "https"] →
       ∃ host id, host ∈ [[]; prefix] ∧ length id = 11%nat
         ∧ Forall (λ c, id_char c = true) id
         ∧ scheme ++ q = scheme ++ lit "://" ++ host ++ site ++ id) as Haux.
    { intros scheme q (q2 & -> & Hq2) Hs. cbn [lang] in Hq2.
      destruct Hq2 as [(q3 & -> & q4 & -> & i & q5 & -> & Hi & Hf & ->)
                      |(q4 & -> & i & q5 & -> & Hi & Hf & ->)].
      - exists prefix, i. rewrite app_nil_r. repeat split; try done.
        apply list_elem_of_further, list_elem_of_here.
      - exists [], i. rewrite app_nil_r. repeat split; try done.
        apply list_elem_of_here. }
    destruct H as [(q & -> & Hq)|Hq].
    + destruct (Haux (lit "https") q Hq) as (host & id & ?);
        [apply list_elem_of_further, list_elem_of_here|].
      exists (lit "https"), host, id. destruct_and?. repeat split; try done.
      apply list_elem_of_further, list_elem_of_here.
    + destruct (Haux (lit "http") q1 Hq) as (host & id & ?);
        [apply list_elem_of_here|].
      exists (lit "http"), host, id. destruct_and?. repeat split; try done.
      apply list_elem_of_here.
  - intros (scheme & host & id & Hs & Hh & Hi & Hf & ->).
    assert (lang [Lit (lit "://"); Opt prefix; Lit site; IdChars 11]
              (lit "://" ++ host ++ site ++ id)) as Hq.
    { exists (host ++ site ++ id). split; [done|]. cbn [lang].
      apply elem_of_cons in Hh as [->|Hh%list_elem_of_singleton].
      - right. exists id. split; [done|]. exists id, [].
        by rewrite app_nil_r.
      - subst host. left. exists (site ++ id). split; [done|].
        exists id. split; [done|]. exists id, []. by rewrite app_nil_r. }
    apply elem_of_cons in Hs as [->|Hs%list_elem_of_singleton].
    + eexists. split; [reflexivity|]. by right.
    + subst scheme. eexists. split; [reflexivity|]. left.
      eexists. split; [reflexivity|]. done.
Qed.

Lemma patterns_sites : patterns = (λ hs, pattern hs.1 hs.2) <$> sites.
Proof. reflexivity. Qed.

Lemma re_match_app p s t : re_match p s = true → re_match p (s ++ t) = true.
Proof.
  rewrite !re_match_lang. intros (u & rest & -> & Hu).
  exists u, (rest ++ t). by rewrite <- app_assoc.
Qed.

Lemma strip_strip s : strip (strip s) = strip s.
Proof. apply strip_clean; [apply starts_clean_strip | apply last_strip]. Qed.

Lemma strip_app_clean s t :
  s ≠ [] → strip s = s → (∀ c, last t = Some c → isspace c = false) →
  strip (s ++ t) = s ++ t.
Proof.
  intros Hne Hs Ht. apply strip_clean.
  - pose proof (starts_clean_strip s) as H. rewrite Hs in H. by destruct s.
  - intros c. destruct t as [|d t] using rev_ind.
    + rewrite app_nil_r, <- Hs. apply last_strip.
    + rewrite app_assoc, last_snoc. intros [= <-]. apply Ht, last_snoc.
Qed.

End UrlLemmas.

(** X1.  A text passes the check exactly when its stripped form is http
    or https, then an optional host prefix and a site of one of the five
    patterns (www. or m. for the watch page, www. for youtu.be, embed and
    v), then eleven identifier characters, then anything. *)
Theorem valid_url_forms (url : pystr) :
  is_valid_url url = true ↔ accepted (strip url).
Proof.
  unfold accepted. split.
  - destruct url as [|c r]; [done|]. unfold is_valid_url.
    intros (p & Hp & Hm)%existsb_exists. rewrite patterns_sites in Hp.
    apply list_elem_of_In, list_elem_of_fmap in Hp as ([prefix site] & -> & Hin).
    apply re_match_lang in Hm as (u & rest & Hs & Hu).
    apply lang_pattern in Hu as (scheme & host & id & ? & ? & ? & ? & ->).
    exists prefix, site, scheme, host, id, rest. repeat split; try done.
    rewrite Hs. by rewrite <- !app_assoc.
  - intros (prefix & site & scheme & host & id & rest
            & Hin & Hs & Hh & Hi & Hf & Hu).
    assert (url ≠ []) as Hne.
    { intros ->. cbn in Hu.
      apply elem_of_cons in Hs as [->|Hs%list_elem_of_singleton];
        [done | by subst scheme]. }
    destruct url as [|c r]; [done|]. unfold is_valid_url.
    apply existsb_exists. exists (pattern prefix site). split.
    + apply list_elem_of_In. rewrite patterns_sites.
      by apply (list_elem_of_fmap_2 (λ hs, pattern hs.1 hs.2) _ (prefix, site)).
    + apply re_match_lang. exists (scheme ++ lit "://" ++ host ++ site ++ id), rest.
      split; [by rewrite Hu, <- !app_assoc|].
      apply lang_pattern. by exists scheme, host, id.
Qed.

(** X2.  Whitespace around the text does not matter, and a text of
    whitespace only is refused. *)
Theorem valid_url_ignores_outer_whitespace (url : pystr) :
  is_valid_url url = is_valid_url (strip url)
  ∧ (strip url = [] → is_valid_url url = false).
Proof.
  assert (strip url = [] → is_valid_url url = false) as Hblank.
  { intros E. destruct url as [|c r]; [done|]. unfold is_valid_url.
    by rewrite E. }
  split; [|done].
  destruct (strip url) as [|c r] eqn:E; [by rewrite Hblank|].
  destruct url as [|d q]; [done|]. unfold is_valid_url.
  by rewrite <- E, strip_strip, E.
Qed.

(** X3.  The patterns are not anchored at the end: an accepted address
    stays accepted when any text that does not end in whitespace is put
    behind it. *)
Theorem valid_url_trailing_text (url t : pystr) :
  is_valid_url url = true →
  (∀ c, last t = Some c → isspace c = false) →
  is_valid_url (strip url ++ t) = true.
Proof.
  intros Hv Ht. destruct url as [|c r]; [done|]. unfold is_valid_url in Hv.
  apply existsb_exists in Hv as (p & Hp & Hm).
  assert (strip (c :: r) ≠ []) as Hne.
  { intros E. rewrite E in Hm.
    assert (Forall (λ q, re_match q [] = false) patterns) as Hall
      by (by repeat constructor).
    rewrite Forall_forall in Hall. apply list_elem_of_In in Hp.
    by rewrite (Hall _ Hp) in Hm. }
  unfold is_valid_url.
  destruct (strip (c :: r) ++ t) as [|d q] eqn:E.
  { by apply app_eq_nil in E as [? _]. }
  rewrite <- E, strip_app_clean; [|done|apply strip_strip|done].
  apply existsb_exists. exists p. split; [done|]. by apply re_match_app.
Qed.

Lemma valid_url_trailing_text_witness :
  is_valid_url (lit "  https://youtu.be/dQw4w9WgXcQ ") = true
  ∧ is_valid_url (lit "https://youtu.be/dQw4w9WgXcQ" ++ lit "?t=42 junk") = true.
Proof.
  split; [reflexivity|].
  apply (valid_url_trailing_text (lit "  https://youtu.be/dQw4w9WgXcQ ")
           (lit "?t=42 junk")); [reflexivity|].
  intros c [= <-]. reflexivity.
Defined.

(** ** The sanitizer, further *)

Section SanitizerMore.

Implicit Types (s t : pystr) (c : N) (b : bool).

Lemma tidy_no_double_space b l r : tidy b (l ++ 32 :: 32 :: r)%N = false.
Proof.
  revert b. induction l as [|c l IH]; intros b; simpl.
  - by rewrite andb_false_r.
  - destruct (isspace c); [|apply IH]. by rewrite IH, andb_false_r.
Qed.

Lemma visible_app s t : visible (s ++ t) = visible s ++ visible t.
Proof. unfold visible. apply List.filter_app. Qed.

Lemma visible_spaces s : Forall (λ c, isspace c = true) s → visible s = [].
Proof.
  unfold visible, blank. induction 1 as [|c r Hc _ IH]; simpl; [done|].
  by rewrite Hc, orb_true_r.
Qed.

Lemma visible_nil_blank s : visible s = [] → Forall (λ c, blank c = true) s.
Proof.
  unfold visible. induction s as [|c r IH]; simpl; [constructor|].
  destruct (blank c) eqn:E; simpl; [|done]. intros H. constructor; auto.
Qed.

Lemma visible_remove_illegal s : visible (remove_illegal s) = visible s.
Proof.
  unfold visible, remove_illegal, blank.
  induction s as [|c r IH]; simpl; [done|].
  destruct (illegal c) eqn:E; simpl; [done|]. rewrite E. simpl.
  by rewrite IH.
Qed.

Lemma visible_collapse b s : visible (collapse b s) = visible s.
Proof.
  unfold visible, blank. revert b.
  induction s as [|c r IH]; intros b; simpl; [done|].
  destruct (isspace c) eqn:E.
  - rewrite orb_true_r. simpl. destruct b; simpl; apply IH.
  - simpl. rewrite E. by rewrite IH.
Qed.

Lemma visible_strip s : visible (strip s) = visible s.
Proof.
  unfold strip.
  destruct (lstrip_split s) as (w1 & H1 & Hw1).
  destruct (rstrip_split (lstrip s)) as (w2 & H2 & Hw2).
  rewrite H1 at 2. rewrite H2 at 2.
  rewrite !visible_app, (visible_spaces _ Hw1), (visible_spaces _ Hw2).
  by rewrite app_nil_r.
Qed.

Lemma truncate_nil s : truncate s = [] → s = [].
Proof.
  unfold truncate. destruct (200 <? length s)%nat; [|done].
  by destruct s.
Qed.

Lemma cleaned_nil_blank s : cleaned s = [] ↔ Forall (λ c, blank c = true) s.
Proof.
  split.
  - intros H. apply truncate_nil in H. apply visible_nil_blank.
    rewrite <- visible_remove_illegal.
    rewrite <- (visible_collapse false), <- visible_strip.
    unfold collapse_spaces in H. by rewrite H.
  - intros H. unfold cleaned, collapse_spaces, strip.
    rewrite lstrip_collapse_blank; [done|].
    unfold remove_illegal, blank in *.
    induction H as [|c r Hc _ IH]; simpl; [constructor|].
    destruct (illegal c); simpl in *; [done|]. by constructor.
Qed.

End SanitizerMore.

(** X4.  The sanitized name is never empty, does not start with
    whitespace, holds no whitespace character other than the space, and
    never two spaces in a row. *)
Theorem sanitize_output_shape (s : pystr) :
  sanitize_filename s ≠ []
  ∧ (∀ c, head (sanitize_filename s) = Some c → isspace c = false)
  ∧ Forall (λ c, isspace c = true → c = 32%N) (sanitize_filename s)
  ∧ ∀ l r, sanitize_filename s ≠ (l ++ 32 :: 32 :: r)%N.
Proof.
  destruct (sanitize_shape s) as (_ & Ht & Hs & _ & Hne).
  repeat split; [done| | |].
  - destruct (sanitize_filename s) as [|d r]; [done|]. simpl in *.
    intros c [= <-]. by apply negb_true_iff.
  - apply Forall_forall. intros c Hc Hsp.
    by apply (tidy_space false (sanitize_filename s)).
  - intros l r E. rewrite E in Ht. by rewrite tidy_no_double_space in Ht.
Qed.

(** X5.  A title that is already a good name comes back unchanged: not
    empty, at most 200 characters, no illegal character, whitespace only
    as single spaces, and none at either end. *)
Theorem clean_title_unchanged (t : pystr) :
  t ≠ [] → (length t ≤ 200)%nat →
  Forall (λ c, illegal c = false) t →
  tidy false t = true →
  (∀ c, head t = Some c → isspace c = false) →
  (∀ c, last t = Some c → isspace c = false) →
  sanitize_filename t = t.
Proof.
  intros Hne Hn Hl Ht Hh Hlast. apply sanitize_fixed; try done.
  destruct t as [|c r]; [done|]. simpl. by rewrite (Hh c).
Qed.

Lemma clean_title_unchanged_witness :
  sanitize_filename (lit "My video title") = lit "My video title".
Proof.
  apply clean_title_unchanged.
  - done.
  - vm_compute. lia.
  - by repeat constructor.
  - reflexivity.
  - by intros c [= <-].
  - by intros c [= <-].
Defined.

(** X6.  A second pass settles the name: a third pass changes
    nothing. *)
Theorem sanitize_thrice (s : pystr) :
  sanitize_filename (sanitize_filename (sanitize_filename s))
  = sanitize_filename (sanitize_filename s).
Proof.
  apply sanitize_clean_end_fixed.
  rewrite sanitize_output. apply last_or_video_strip.
Qed.

(** X7.  The fallback name is used for the titles made of illegal
    characters and whitespace only, and the cleaned form is empty for no
    other title; every other title gives its cleaned form. *)
Theorem fallback_for_blank_titles (s : pystr) :
  (cleaned s = [] ↔ Forall (λ c, blank c = true) s)
  ∧ (Forall (λ c, blank c = true) s → sanitize_filename s = lit "video")
  ∧ (Exists (λ c, blank c = false) s → sanitize_filename s = cleaned s).
Proof.
  split; [apply cleaned_nil_blank|]. split.
  - intros H. by apply sanitize_blank.
  - intros H. rewrite sanitize_filename_or_video.
    destruct (cleaned s) as [|c r] eqn:E; [|done].
    apply cleaned_nil_blank in E. exfalso.
    apply Exists_exists in H as (c & Hc & Hb).
    rewrite Forall_forall in E. specialize (E c Hc). congruence.
Qed.

(** X8.  The sanitizer never alters a character that is neither illegal
    nor whitespace: for a title that has such a character, those
    characters of the name are, in order, the first ones of the title,
    and all of them when the cleaned title has at most 200 characters. *)
Theorem sanitize_keeps_visible (s : pystr) :
  Exists (λ c, blank c = false) s →
  visible (sanitize_filename s) `prefix_of` visible s
  ∧ ((length (strip (collapse_spaces (remove_illegal s))) ≤ 200)%nat →
     visible (sanitize_filename s) = visible s).
Proof.
  intros H.
  assert (sanitize_filename s = cleaned s) as ->.
  { rewrite sanitize_filename_or_video.
    destruct (cleaned s) as [|c r] eqn:E; [|done].
    apply cleaned_nil_blank in E. exfalso.
    apply Exists_exists in H as (c & Hc & Hb).
    rewrite Forall_forall in E. specialize (E c Hc). congruence. }
  assert (visible (strip (collapse_spaces (remove_illegal s))) = visible s)
    as Hv.
  { unfold collapse_spaces.
    by rewrite visible_strip, visible_collapse, visible_remove_illegal. }
  unfold cleaned. split.
  - destruct (truncate_prefix (strip (collapse_spaces (remove_illegal s))))
      as (t & Ht).
    exists (visible t). rewrite <- Hv. rewrite Ht at 1. apply visible_app.
  - intros Hn. by rewrite (truncate_short _ Hn).
Qed.

Lemma sanitize_keeps_visible_witness :
  visible (sanitize_filename (lit "My: video / title?"))
  = visible (lit "My: video / title?").
Proof.
  apply (sanitize_keeps_visible (lit "My: video / title?")).
  - apply Exists_cons_hd. reflexivity.
  - vm_compute. lia.
Defined.

(** ** Printed integers *)

Section PrintedIntegers.

Implicit Types (u v : Decimal.uint) (a b : Z) (l r : pystr).

Lemma digits_numeric u : Forall (λ c, numeric c = true) (digits u).
Proof. induction u; simpl; by constructor. Qed.

Lemma str_of_int_numeric a : Forall (λ c, numeric c = true) (str_of_int a).
Proof.
  unfold str_of_int. destruct (Z.to_int a); [apply digits_numeric|].
  constructor; [done | apply digits_numeric].
Qed.

Lemma digits_inj u v : digits u = digits v → u = v.
Proof.
  revert v. induction u; intros v; destruct v; simpl; try done;
    intros [= H]; f_equal; auto.
Qed.

Lemma digits_no_minus u r : digits u ≠ (45 :: r)%N.
Proof. by destruct u. Qed.

Lemma str_of_int_inj a b : str_of_int a = str_of_int b → a = b.
Proof.
  unfold str_of_int. intros H. apply DecimalZ.to_int_inj.
  destruct (Z.to_int a) as [u|u], (Z.to_int b) as [v|v].
  - f_equal. by apply digits_inj.
  - by apply digits_no_minus in H.
  - symmetry in H. by apply digits_no_minus in H.
  - injection H as H. f_equal. by apply digits_inj.
Qed.

(** Two texts that start with printed numbers and go on with other
    characters are equal only piece by piece. *)
Lemma numeric_prefix_inj l1 l2 x y r1 r2 :
  Forall (λ c, numeric c = true) l1 → Forall (λ c, numeric c = true) l2 →
  numeric x = false → numeric y = false →
  l1 ++ x :: r1 = l2 ++ y :: r2 → l1 = l2 ∧ x = y ∧ r1 = r2.
Proof.
  intros H1. revert l2. induction H1 as [|c l1 Hc _ IH]; intros l2 H2 Hx Hy.
  - destruct H2 as [|d l2 Hd _]; simpl; [by intros [= -> ->]|].
    intros [= -> _]. congruence.
  - destruct H2 as [|d l2 Hd H2]; simpl.
    + intros [= -> _]. congruence.
    + intros [= -> H]. destruct (IH l2 H2 Hx Hy H) as (-> & -> & ->). done.
Qed.

Lemma str_of_int_prefix_inj a b x y r1 r2 :
  numeric x = false → numeric y = false →
  str_of_int a ++ x :: r1 = str_of_int b ++ y :: r2 →
  a = b ∧ x = y ∧ r1 = r2.
Proof.
  intros Hx Hy H.
  destruct (numeric_prefix_inj _ _ _ _ _ _ (str_of_int_numeric a)
              (str_of_int_numeric b) Hx Hy H) as (E & -> & ->).
  by apply str_of_int_inj in E.
Qed.

End PrintedIntegers.

(** ** Keys and labels *)

Section KeysAndLabels.

Implicit Types (d : Fmt.t) (e : Opt.t) (k : pystr) (abr : option Z).
Implicit Types (best : option Fmt.t) (show_all : bool).

Lemma abr_str_prefix_inj abr1 abr2 x r1 r2 :
  numeric x = false → x ≠ 117%N →
  abr_str abr1 ++ x :: r1 = abr_str abr2 ++ x :: r2 → abr1 = abr2 ∧ r1 = r2.
Proof.
  intros Hx Hu. destruct abr1 as [a|], abr2 as [b|]; simpl.
  - intros H. by apply str_of_int_prefix_inj in H as (-> & _ & ->).
  - destruct (str_of_int_numeric a) as [|c l Hc _]; simpl; intros [= -> _];
      done.
  - destruct (str_of_int_numeric b) as [|c l Hc _]; simpl; intros [= <- _];
      done.
  - by intros [= ->].
Qed.

Lemma abr_str_inj abr1 abr2 : abr_str abr1 = abr_str abr2 → abr1 = abr2.
Proof.
  intros H.
  assert (abr_str abr1 ++ [107%N] = abr_str abr2 ++ [107%N]) as H'
    by (by rewrite H).
  by apply abr_str_prefix_inj in H' as [-> _].
Qed.

Lemma truthy_int_or0 (o : option Z) : truthy_int o = false → or0 o = 0.
Proof.
  destruct o as [z|]; simpl; [|done].
  by intros ->%negb_false_iff%Z.eqb_eq.
Qed.

Lemma video_head_inj h1 h2 fps1 fps2 r1 r2 :
  video_head h1 fps1 ++ r1 = video_head h2 fps2 ++ r2 →
  h1 = h2 ∧ or0 fps1 = or0 fps2 ∧ r1 = r2.
Proof.
  unfold video_head, fps_str. rewrite <- !app_assoc. cbn [lit app].
  change (lit "p" ++ ?x) with (112%N :: x).
  intros H. apply str_of_int_prefix_inj in H as (-> & _ & H); [|done..].
  split; [done|].
  destruct (truthy_int fps1) eqn:E1, (truthy_int fps2) eqn:E2;
    revert H; rewrite <- ?app_assoc; simpl.
  - intros [= H]. apply str_of_int_prefix_inj in H as (-> & _ & H); [|done..].
    by injection H as ->.
  - done.
  - done.
  - intros [= ->]. by rewrite !truthy_int_or0.
Qed.

(** Key and label of the entry that the loop body builds. *)
Lemma classify_shape best show_all d k e :
  classify best show_all d = Some (k, e) →
  Opt.format_id e = default [] (Fmt.format_id d)
  ∧ ((truthy_int (Fmt.height d) = true
      ∧ k = key_complete (or0 (Fmt.height d)) (Fmt.fps d)
      ∧ ∃ r, Opt.resolution e
             = video_head (or0 (Fmt.height d)) (Fmt.fps d)
                 ++ mark_complete ++ r)
     ∨ (truthy_int (Fmt.height d) = true
        ∧ k = key_video_merge (or0 (Fmt.height d)) (Fmt.fps d)
        ∧ ∃ r, Opt.resolution e
               = video_head (or0 (Fmt.height d)) (Fmt.fps d)
                   ++ mark_merge ++ r)
     ∨ (k = key_audio_only (Fmt.abr d)
        ∧ ∃ r, Opt.resolution e
               = mark_audio ++ lit " Audio Only - " ++ abr_str (Fmt.abr d)
                   ++ lit "kbps (" ++ r)).
Proof.
  unfold classify, video_head.
  destruct (truthy_str (Fmt.format_id d)); cbn [negb]; [|done].
  destruct (_ && negb show_all); [done|].
  destruct (truthy_int (Fmt.height d)) eqn:Eh; rewrite ?andb_true_r, ?andb_false_r.
  - destruct (bool_decide (default none (Fmt.vcodec d) ≠ none)).
    + destruct (bool_decide (default none (Fmt.acodec d) ≠ none)).
      * intros [= <- <-]. cbn [Opt.resolution Opt.format_id]. split; [done|]. left. repeat split.
        eexists. by rewrite <- !app_assoc.
      * intros [= <- <-]. cbn [Opt.resolution Opt.format_id]. split; [done|]. right. left. repeat split.
        eexists. by rewrite <- !app_assoc.
    + destruct (_ && show_all); [|done].
      intros [= <- <-]. cbn [Opt.resolution Opt.format_id]. split; [done|]. right. right. split; [done|].
      by eexists.
  - destruct (_ && show_all); [|done].
    intros [= <- <-]. cbn [Opt.resolution Opt.format_id]. split; [done|]. right. right. split; [done|].
    by eexists.
Qed.

Lemma key_complete_inj h1 h2 fps1 fps2 :
  key_complete h1 fps1 = key_complete h2 fps2 →
  h1 = h2 ∧ or0 fps1 = or0 fps2.
Proof.
  unfold key_complete. intros H%app_inv_head.
  apply str_of_int_prefix_inj in H as (-> & _ & H); [|done..].
  by apply str_of_int_inj in H.
Qed.

Lemma key_video_merge_inj h1 h2 fps1 fps2 :
  key_video_merge h1 fps1 = key_video_merge h2 fps2 →
  h1 = h2 ∧ or0 fps1 = or0 fps2.
Proof.
  unfold key_video_merge. intros H%app_inv_head.
  apply str_of_int_prefix_inj in H as (-> & _ & H); [|done..].
  by apply str_of_int_inj in H.
Qed.

Lemma key_audio_only_inj abr1 abr2 :
  key_audio_only abr1 = key_audio_only abr2 → abr1 = abr2.
Proof. unfold key_audio_only. intros H%app_inv_head. by apply abr_str_inj. Qed.

(** Entries built under the same key have the same identity. *)
Lemma classify_key_identity best show_all d1 d2 k e1 e2 :
  classify best show_all d1 = Some (k, e1) →
  classify best show_all d2 = Some (k, e2) →
  identity_key d1 e1 = identity_key d2 e2.
Proof.
  intros H1 H2. unfold identity_key.
  apply classify_Some in H1 as (_ & Hh1 & Hf1 & _ & _ & C1).
  apply classify_Some in H2 as (_ & Hh2 & Hf2 & _ & _ & C2).
  rewrite Hh1, Hh2, Hf1, Hf2.
  destruct C1 as [C1|[C1|C1]], C2 as [C2|[C2|C2]]; destruct_and?;
    repeat match goal with H : Opt.priority _ = _ |- _ => rewrite H end;
    match goal with
    | H1 : k = _, H2 : k = _ |- _ => rewrite H1 in H2
    end; cbn; try done.
  - match goal with H : key_complete _ _ = _ |- _ =>
      apply key_complete_inj in H as [-> ->] end. done.
  - match goal with H : key_video_merge _ _ = _ |- _ =>
      apply key_video_merge_inj in H as [-> ->] end. done.
  - match goal with H : key_audio_only _ = _ |- _ =>
      apply key_audio_only_inj in H as -> end. done.
Qed.

(** Entries with the same label were built under the same key. *)
Lemma classify_label_key best show_all d1 d2 k1 k2 e1 e2 :
  classify best show_all d1 = Some (k1, e1) →
  classify best show_all d2 = Some (k2, e2) →
  Opt.resolution e1 = Opt.resolution e2 → k1 = k2.
Proof.
  intros H1 H2 Hl.
  apply classify_shape in H1 as (_ & C1).
  apply classify_shape in H2 as (_ & C2).
  destruct C1 as [(_ & -> & r1 & L1)|[(_ & -> & r1 & L1)|(-> & r1 & L1)]],
           C2 as [(_ & -> & r2 & L2)|[(_ & -> & r2 & L2)|(-> & r2 & L2)]];
    rewrite L1, L2 in Hl.
  - apply video_head_inj in Hl as (-> & Hf & _).
    unfold key_complete. by rewrite Hf.
  - by apply video_head_inj in Hl as (_ & _ & ?).
  - exfalso. unfold video_head in Hl. rewrite <- !app_assoc in Hl.
    destruct (str_of_int_numeric (or0 (Fmt.height d1))) as [|c l Hc _];
      simpl in Hl; [done|]. injection Hl as -> _. done.
  - by apply video_head_inj in Hl as (_ & _ & ?).
  - apply video_head_inj in Hl as (-> & Hf & _).
    unfold key_video_merge. by rewrite Hf.
  - exfalso. unfold video_head in Hl. rewrite <- !app_assoc in Hl.
    destruct (str_of_int_numeric (or0 (Fmt.height d1))) as [|c l Hc _];
      simpl in Hl; [done|]. injection Hl as -> _. done.
  - exfalso. unfold video_head in Hl. rewrite <- !app_assoc in Hl.
    destruct (str_of_int_numeric (or0 (Fmt.height d2))) as [|c l Hc _];
      simpl in Hl; [done|]. injection Hl as <- _. done.
  - exfalso. unfold video_head in Hl. rewrite <- !app_assoc in Hl.
    destruct (str_of_int_numeric (or0 (Fmt.height d2))) as [|c l Hc _];
      simpl in Hl; [done|]. injection Hl as <- _. done.
  - apply app_inv_head in Hl. apply (app_inv_head (lit " Audio Only - ")) in Hl.
    change (lit "kbps (" ++ ?x) with (107%N :: (lit "bps (" ++ x)) in Hl.
    apply abr_str_prefix_inj in Hl as [-> _]; done.
Qed.

End KeysAndLabels.

(** ** The format menu, further *)

Section MenuMoreLemmas.

Implicit Types (formats l past : list Fmt.t) (d f : Fmt.t) (e : Opt.t).
Implicit Types (k : pystr) (best : option Fmt.t) (show_all : bool).
Implicit Types (tr : list (Fmt.t * pystr * Opt.t)) (seen : gset pystr).

Lemma traced_step_first best show_all past tr seen f :
  (∀ k, k ∈ seen ↔ k ∈ tr.*1.*2) →
  first_inv best show_all past tr seen →
  first_inv best show_all (past ++ [f])
    (traced_step best show_all (tr, seen) f).1
    (traced_step best show_all (tr, seen) f).2.
Proof.
  intros Hseen [Hall Hfirst].
  assert (Forall (λ t, ∃ p1 p2, past ++ [f] = p1 ++ t.1.1 :: p2
                    ∧ ∀ g e, g ∈ p1 → classify best show_all g ≠ Some (t.1.2, e))
            tr) as Hold.
  { eapply Forall_impl; [exact Hfirst|]. intros t (p1 & p2 & -> & Hp1).
    exists p1, (p2 ++ [f]). by rewrite <- app_assoc. }
  unfold traced_step.
  destruct (classify best show_all f) as [[k e]|] eqn:E.
  - cbn [fst snd]. destruct (decide (k ∈ seen)) as [Hin|Hnin]; cbn [fst snd].
    + split; [|done]. intros g k' e' [Hg|Hg%list_elem_of_singleton]%elem_of_app Hc;
        [|subst g].
      * eauto.
      * by simplify_eq.
    + split.
      * intros g k' e' [Hg|Hg%list_elem_of_singleton]%elem_of_app Hc;
        [|subst g].
        -- apply elem_of_union_r. eauto.
        -- simplify_eq. apply elem_of_union_l. by apply elem_of_singleton.
      * apply Forall_app. split; [done|]. repeat constructor.
        exists past, []. split; [done|]. cbn. intros g e' Hg Hc.
        apply Hnin. eauto.
  - split; [|done]. intros g k' e' [Hg|Hg%list_elem_of_singleton]%elem_of_app Hc;
        [|subst g].
    + eauto.
    + by simplify_eq.
Qed.

Lemma traced_fold_first best show_all l0 past l tr seen :
  (∀ f, f ∈ l → f ∈ l0) →
  loop_inv best show_all l0 tr seen →
  first_inv best show_all past tr seen →
  first_inv best show_all (past ++ l)
    (fold_left (traced_step best show_all) l (tr, seen)).1
    (fold_left (traced_step best show_all) l (tr, seen)).2.
Proof.
  revert past tr seen.
  induction l as [|f r IH]; intros past tr seen Hl Hinv Hfirst.
  - by rewrite app_nil_r.
  - cbn [fold_left].
    pose proof (traced_step_inv best show_all l0 tr seen f) as Hstep.
    pose proof (traced_step_first best show_all past tr seen f) as Hstep'.
    destruct (traced_step best show_all (tr, seen) f) as [tr' seen'].
    rewrite (cons_middle f past r), app_assoc. apply IH.
    + intros g Hg. apply Hl. by right.
    + apply Hstep; [apply Hl; by left | done].
    + apply Hstep'; [by destruct Hinv as (_ & _ & ?) | done].
Qed.

Lemma traced_fold_length best show_all l tr seen :
  (length (fold_left (traced_step best show_all) l (tr, seen)).1
   ≤ length tr + length l)%nat.
Proof.
  revert tr seen. induction l as [|f r IH]; intros tr seen; simpl; [lia|].
  assert (length (traced_step best show_all (tr, seen) f).1 ≤ S (length tr))%nat
    as Hstep.
  { unfold traced_step. destruct (classify _ _ f) as [[k e]|]; simpl; [|lia].
    destruct (decide (k ∈ seen)); simpl; [lia|]. rewrite length_app. simpl. lia. }
  destruct (traced_step best show_all (tr, seen) f) as [tr' seen'].
  specialize (IH tr' seen'). simpl in Hstep. lia.
Qed.

(** The state in which the loop ends. *)
Lemma traced_loop_final formats show_all :
  ∃ tr seen,
    loop_inv (best_audio_of formats) show_all formats tr seen
    ∧ first_inv (best_audio_of formats) show_all
        (sorted_desc quality_key formats) tr seen
    ∧ traced_menu formats show_all ≡ₚ tr
    ∧ (length tr ≤ length formats)%nat.
Proof.
  assert (∀ f, f ∈ sorted_desc quality_key formats → f ∈ formats) as Hsub.
  { intros f. unfold sorted_desc. by rewrite elem_of_sort_by. }
  assert (loop_inv (best_audio_of formats) show_all formats [] ∅) as Hinv0.
  { repeat split; [constructor | constructor | set_solver | set_solver]. }
  assert (first_inv (best_audio_of formats) show_all [] [] ∅) as Hfirst0.
  { split; [|constructor]. by intros f k e ?%not_elem_of_nil. }
  pose proof (traced_fold_inv _ show_all formats _ [] ∅ Hsub Hinv0) as H1.
  pose proof (traced_fold_first _ show_all formats [] _ [] ∅ Hsub Hinv0 Hfirst0)
    as H2.
  pose proof (traced_fold_length (best_audio_of formats) show_all) as Hlen.
  specialize (Hlen (sorted_desc quality_key formats) [] ∅).
  unfold traced_menu.
  destruct (fold_left _ _ _) as [tr seen]. cbn [fst snd app] in *.
  exists tr, seen. split; [exact H1|]. split; [exact H2|]. split.
  - unfold sorted_asc. apply sort_by_perm.
  - unfold sorted_desc in Hlen. rewrite (sort_by_perm _ formats) in Hlen.
    simpl in Hlen. lia.
Qed.

Lemma StronglySorted_middle {A} (R : A → A → Prop) (p1 p2 : list A) (x : A) :
  StronglySorted R (p1 ++ x :: p2) → Forall (R x) p2.
Proof.
  induction p1 as [|y p1 IH]; simpl; intros H.
  - by apply StronglySorted_inv in H as [_ H].
  - apply StronglySorted_inv in H as [H _]. auto.
Qed.

Lemma sorted_desc_sorted formats :
  StronglySorted (λ a b, quality_ge a b) (sorted_desc quality_key formats).
Proof.
  apply (StronglySorted_impl
           (λ a b, tuple_leb (quality_key b) (quality_key a) = true)).
  - intros a b. rewrite tuple_leb_spec. unfold quality_key, quality_ge.
    simpl. lia.
  - unfold sorted_desc. apply sort_by_sorted.
    + intros a b. apply tuple_leb_total.
    + intros a b c H1 H2. by apply (tuple_leb_trans _ (quality_key b)).
Qed.

End MenuMoreLemmas.

Lemma classify_unpaired (best : option Fmt.t) (show_all : bool)
    (d : Fmt.t) (k : pystr) (e : Opt.t) :
  classify best show_all d = Some (k, e) →
  Opt.merge_needed e = false → Opt.best_audio_id e = None.
Proof.
  unfold classify. repeat case_match; try done; intros [= <- <-]; done.
Qed.

(** X9.  The deduplication key is faithful to the identity of an entry:
    two descriptors that the loop accepts get the same key exactly when
    their entries have the same rank class and, for the video classes, the
    same height and frame rate, or, for the audio-only class, the same
    audio bitrate (or both none). *)
Theorem same_key_same_identity
    (best : option Fmt.t) (show_all : bool) (d1 d2 : Fmt.t)
    (k1 k2 : pystr) (e1 e2 : Opt.t) :
  classify best show_all d1 = Some (k1, e1) →
  classify best show_all d2 = Some (k2, e2) →
  (k1 = k2 ↔ identity_key d1 e1 = identity_key d2 e2).
Proof.
  intros H1 H2. split.
  - intros ->. by apply (classify_key_identity best show_all d1 d2 k2).
  - by apply (classify_identity best show_all d1 d2).
Qed.

Lemma same_key_same_identity_witness :
  key_complete 360 None = key_complete 360 (Some 0)
  ↔ (1, inl (360, 0)) = ((1, inl (360, 0)) : Z * (Z * Z + option Z)).
Proof.
  pose (d1 := fmt "18" "h264" "aac" (Some 360) None).
  pose (d2 := Fmt.mk (Some (lit "22")) (Some (lit "h264")) (Some (lit "aac"))
                (Some 360) None None (Some 0) None None None None).
  destruct (classify None false d1) as [[k1 e1]|] eqn:E1; [|done].
  destruct (classify None false d2) as [[k2 e2]|] eqn:E2; [|done].
  pose proof (same_key_same_identity None false d1 d2 k1 k2 e1 e2 E1 E2) as H.
  vm_compute in E1, E2. injection E1 as <- <-. injection E2 as <- <-.
  exact H.
Defined.

Lemma traced_menu_labels (formats : list Fmt.t) (show_all : bool) :
  NoDup ((λ t, Opt.resolution t.2) <$> traced_menu formats show_all).
Proof.
  destruct (traced_menu_inv formats show_all) as [Hsrc Hnd].
  rewrite <- list_fmap_compose in Hnd. apply NoDup_fmap_2_strong.
  - intros t1 t2 H1 H2 Hl.
    apply (NoDup_fmap_inj_on _ _ _ _ Hnd H1 H2). cbn in *.
    rewrite Forall_forall in Hsrc.
    destruct (Hsrc _ H1) as [_ C1], (Hsrc _ H2) as [_ C2].
    exact (classify_label_key _ _ _ _ _ _ _ _ C1 C2 Hl).
  - by apply (NoDup_fmap_1 (λ t, t.1.2)).
Qed.

(** X10.  The labels of a menu are pairwise distinct. *)
Theorem menu_labels_distinct (formats : list Fmt.t) (show_all : bool) :
  NoDup (Opt.resolution <$> get_video_formats (Some (Some formats)) show_all).
Proof.
  cbn [get_video_formats]. rewrite <- traced_menu_entries.
  rewrite <- list_fmap_compose. apply traced_menu_labels.
Qed.



(** X12.  The entry kept for an identity comes from the best descriptor
    of that identity: every accepted descriptor of the same identity has
    at most its height, then width, then bitrate. *)
Theorem menu_keeps_best_descriptor
    (formats : list Fmt.t) (show_all : bool) (e : Opt.t) :
  e ∈ get_video_formats (Some (Some formats)) show_all →
  ∃ d, comes_from formats show_all d e
       ∧ ∀ d' e', comes_from formats show_all d' e' →
                  identity_key d' e' = identity_key d e →
                  quality_ge d d'.
Proof.
  cbn [get_video_formats]. rewrite <- traced_menu_entries.
  intros ([[d k] e0] & -> & Hin)%list_elem_of_fmap. cbn [snd].
  destruct (traced_loop_final formats show_all)
    as (tr & seen & (Hsrc & _ & _) & [_ Hfirst] & Hperm & _).
  rewrite Hperm in Hin. rewrite Forall_forall in Hsrc, Hfirst.
  destruct (Hsrc _ Hin) as [Hd Hc].
  destruct (Hfirst _ Hin) as (p1 & p2 & Hsorted & Hp1). cbn in *.
  exists d. split; [split; [done | by exists k]|].
  intros d' e' [Hd' [k' Hk']] Hid.
  assert (k' = k) as -> by exact (classify_identity _ _ _ _ _ _ _ _ Hk' Hc Hid).
  assert (d' ∈ sorted_desc quality_key formats) as Hs.
  { unfold sorted_desc. by rewrite elem_of_sort_by. }
  pose proof (sorted_desc_sorted formats) as Hss. rewrite Hsorted in Hs, Hss.
  apply elem_of_app in Hs as [Hs|Hs]; [by destruct (Hp1 d' e' Hs)|].
  apply elem_of_cons in Hs as [->|Hs].
  - unfold quality_ge. lia.
  - apply StronglySorted_middle in Hss. rewrite Forall_forall in Hss. auto.
Qed.

Lemma menu_keeps_best_descriptor_witness :
  ∃ d, comes_from scenario_A false d entry_137
       ∧ ∀ d' e', comes_from scenario_A false d' e' →
                  identity_key d' e' = identity_key d entry_137 →
                  quality_ge d d'.
Proof.
  apply (menu_keeps_best_descriptor scenario_A false entry_137).
  vm_compute. apply list_elem_of_further, list_elem_of_here.
Defined.

(** X13.  What holds for every entry of a menu: its format id is the
    non-empty id of a descriptor of the input; its rank class is 1, 2 or 3;
    it needs a merge exactly in rank class 2; rank class 1 has video and
    audio, rank class 2 has video and no audio, both with a height other
    than zero, and rank class 3 has audio; and only an entry that needs a
    merge carries a paired audio id. *)
Theorem menu_entry_invariants
    (formats : list Fmt.t) (show_all : bool) (e : Opt.t) :
  e ∈ get_video_formats (Some (Some formats)) show_all →
  Opt.format_id e ≠ []
  ∧ (∃ d, d ∈ formats ∧ Fmt.format_id d = Some (Opt.format_id e))
  ∧ Opt.priority e ∈ [1; 2; 3]
  ∧ (Opt.merge_needed e = true ↔ Opt.priority e = 2)
  ∧ (Opt.priority e = 1 →
     Opt.has_video e = true ∧ Opt.has_audio e = true ∧ Opt.height e ≠ 0)
  ∧ (Opt.priority e = 2 →
     Opt.has_video e = true ∧ Opt.has_audio e = false ∧ Opt.height e ≠ 0)
  ∧ (Opt.priority e = 3 → Opt.has_audio e = true)
  ∧ (Opt.best_audio_id e ≠ None → Opt.merge_needed e = true).
Proof.
  intros He. cbn [get_video_formats] in He.
  destruct (menu_entry_source _ _ _ He) as (d & Hd & k & Hk).
  pose proof (classify_unpaired _ _ _ _ _ Hk) as Hun.
  pose proof (classify_shape _ _ _ _ _ Hk) as [Hid _].
  apply classify_Some in Hk as (Ht & Hh & Hf & Hv & Ha & C).
  assert (∀ o : option Z, truthy_int o = true → or0 o ≠ 0) as Hnz.
  { intros [z|]; simpl; [|done]. by intros ?%negb_true_iff%Z.eqb_neq. }
  destruct (Fmt.format_id d) as [[|c r]|] eqn:E; try done. cbn in Hid.
  split; [by rewrite Hid|]. split; [exists d; by rewrite Hid|].
  rewrite Hv, Ha, Hh.
  destruct C as [C|[C|C]]; destruct_and?;
    repeat match goal with H : Opt.priority e = _ |- _ => rewrite H end;
    repeat match goal with H : Opt.merge_needed e = _ |- _ => rewrite H end;
    (split; [rewrite !elem_of_cons; tauto|]); repeat split; try done; try lia;
    try (by apply bool_decide_eq_true_2);
    try (by apply bool_decide_eq_false_2; intros ?);
    try (by apply Hnz);
    try (intros _; by apply bool_decide_eq_true_2);
    try (intros Hb; by rewrite Hun in Hb).
Qed.

Lemma menu_entry_invariants_witness :
  Opt.format_id entry_137 ≠ [] ∧ Opt.priority entry_137 ∈ [1; 2; 3].
Proof.
  destruct (menu_entry_invariants scenario_A false entry_137)
    as (H1 & _ & H3 & _).
  - vm_compute. apply list_elem_of_further, list_elem_of_here.
  - by split.
Defined.

(** X14.  When audio-only formats are hidden, every entry of the menu is
    a video entry: it has video and its rank class is 1 or 2. *)
Theorem menu_without_audio_only (formats : list Fmt.t) (e : Opt.t) :
  e ∈ get_video_formats (Some (Some formats)) false →
  Opt.has_video e = true ∧ Opt.priority e ∈ [1; 2].
Proof.
  intros He. cbn [get_video_formats] in He.
  destruct (menu_entry_source _ _ _ He) as (d & _ & k & Hk).
  apply classify_Some in Hk as (_ & _ & _ & Hv & _ & C).
  rewrite Hv.
  destruct C as [C|[C|C]]; destruct_and?; try done;
    repeat match goal with H : Opt.priority e = _ |- _ => rewrite H end;
    (split; [by apply bool_decide_eq_true_2 | set_solver]).
Qed.

Lemma menu_without_audio_only_witness :
  Opt.has_video entry_137 = true ∧ Opt.priority entry_137 ∈ [1; 2].
Proof.
  apply (menu_without_audio_only scenario_A entry_137).
  vm_compute. apply list_elem_of_further, list_elem_of_here.
Defined.

(** X15.  The menu has at most as many entries as the input has
    descriptors, and none for an empty input or a failed extraction. *)
Theorem menu_not_longer_than_input (formats : list Fmt.t) (show_all : bool) :
  (length (get_video_formats (Some (Some formats)) show_all)
   ≤ length formats)%nat
  ∧ get_video_formats (Some (Some [])) show_all = []
  ∧ get_video_formats (Some None) show_all = []
  ∧ get_video_formats None show_all = [].
Proof.
  split; [|done]. cbn [get_video_formats].
  rewrite <- traced_menu_entries, length_fmap.
  destruct (traced_loop_final formats show_all)
    as (tr & seen & _ & _ & Hperm & Hlen).
  by rewrite Hperm.
Qed.

(** X16.  Without an audio-only descriptor in the input, no entry of the
    menu carries a paired audio id. *)
Theorem no_audio_only_no_pairing
    (formats : list Fmt.t) (show_all : bool) (e : Opt.t) :
  audio_formats formats = [] →
  e ∈ get_video_formats (Some (Some formats)) show_all →
  Opt.best_audio_id e = None.
Proof.
  intros Hno He. cbn [get_video_formats] in He.
  destruct (menu_entry_source _ _ _ He) as (d & _ & k & Hk).
  unfold best_audio_of in Hk. rewrite Hno in Hk. cbn [max_by] in Hk.
  destruct (Opt.merge_needed e) eqn:Em.
  - apply classify_Some in Hk as (_ & _ & _ & _ & _ & [C|[C|C]]);
      destruct_and?; try congruence.
    match goal with H : Opt.best_audio_id e = _ |- _ => exact H end.
  - by apply (classify_unpaired _ _ _ _ _ Hk).
Qed.

Lemma no_audio_only_no_pairing_witness :
  ∃ e, head (get_video_formats (Some (Some [complete_no_height])) true)
       = Some e
       ∧ Opt.best_audio_id e = None.
Proof.
  eexists. split; [vm_compute; reflexivity|].
  apply (no_audio_only_no_pairing [complete_no_height] true).
  - reflexivity.
  - vm_compute. apply list_elem_of_here.
Defined.

(** ** The download orchestration, further *)

Section DownloadMore.

Implicit Types (w : world) (url path opt base : pystr) (fi : Opt.t).
Implicit Types (title : option pystr) (o : ydl_opts).

Lemma download_no_error w o url :
  List.filter is_st_error (download w o url).1 = [].
Proof.
  unfold download. destruct (ydl_download w o url) as [notes out]. cbn.
  induction notes as [|n r IH]; [done|]. cbn.
  rewrite List.filter_app, IH, app_nil_r.
  by destruct n as [t te dl fn| |]; cbn; repeat case_match.
Qed.

Lemma download_result w o url :
  (download w o url).2 = inr () ↔ (ydl_download w o url).2 = Completed.
Proof.
  unfold download. destruct (ydl_download w o url) as [notes [| |]]; cbn;
    by split.
Qed.

(** A handler ends with its one error message and returns failure. *)
Lemma handler_shape ex :
  ∃ t msg, handler ex = (t ++ [StError msg], false)
           ∧ List.filter is_st_error t = [] ∧ downloads t = [].
Proof.
  destruct ex as [m|m]; cbn.
  - repeat case_match; by eexists [], _.
  - by eexists [_], _.
Qed.

(** One download followed by the final message: the events, the download
    calls and the result. *)
Lemma single_download_run w o url msg :
  let run := try_except (download w o url ;; emit (Markdown msg) ;; mret true)
               handler in
  downloads run.1 = [o]
  ∧ (run.2 = true ↔ (ydl_download w o url).2 = Completed)
  ∧ (if run.2
     then List.filter is_st_error run.1 = [] ∧ last run.1 = Some (Markdown msg)
     else ∃ t m, run.1 = t ++ [StError m] ∧ List.filter is_st_error t = []).
Proof.
  cbn zeta. unfold mbind, M_bind, emit, mret, M_ret, try_except.
  pose proof (downloads_download w o url) as Hd.
  pose proof (download_no_error w o url) as He.
  pose proof (download_result w o url) as Hr.
  destruct (download w o url) as [t [ex|[]]]; cbn in *.
  - destruct (handler_shape ex) as (t' & m & -> & Ht' & Hd'). cbn.
    split_and!.
    + unfold downloads in *. by rewrite !omap_app, Hd, Hd'.
    + split; [done|]. intros E. by apply Hr in E.
    + exists (t ++ t'), m. split; [by rewrite app_assoc|].
      by rewrite List.filter_app, He, Ht'.
  - split_and!.
    + unfold downloads in *. by rewrite omap_app, Hd.
    + split; [|done]. intros _. by apply Hr.
    + by rewrite List.filter_app, He.
    + by rewrite last_snoc.
Qed.

(** The two downloads of the keep-separate branch. *)
Lemma separate_download_run w o1 o2 url msg1 msg2 :
  let run := try_except
               (emit (Markdown msg1) ;; download w o1 url ;;
                download w o2 url ;; emit (Markdown msg2) ;; mret true)
               handler in
  ((ydl_download w o1 url).2 = Completed → downloads run.1 = [o1; o2])
  ∧ ((ydl_download w o1 url).2 ≠ Completed →
     downloads run.1 = [o1] ∧ run.2 = false)
  ∧ (run.2 = true ↔ (ydl_download w o1 url).2 = Completed
                     ∧ (ydl_download w o2 url).2 = Completed)
  ∧ (if run.2
     then List.filter is_st_error run.1 = [] ∧ last run.1 = Some (Markdown msg2)
     else ∃ t m, run.1 = t ++ [StError m] ∧ List.filter is_st_error t = []).
Proof.
  cbn zeta. unfold mbind, M_bind, emit, mret, M_ret, try_except.
  pose proof (downloads_download w o1 url) as Hd1.
  pose proof (download_no_error w o1 url) as He1.
  pose proof (download_result w o1 url) as Hr1.
  pose proof (downloads_download w o2 url) as Hd2.
  pose proof (download_no_error w o2 url) as He2.
  pose proof (download_result w o2 url) as Hr2.
  destruct (download w o1 url) as [t1 [ex|[]]]; cbn in *.
  - destruct (handler_shape ex) as (t' & m & -> & Ht' & Hd'). cbn.
    split_and!.
    + intros E. by apply Hr1 in E.
    + intros _. split; [|done].
      unfold downloads in *. rewrite omap_app, Hd1. cbn.
      by rewrite omap_app, Hd'.
    + split; [done|]. intros [E' _]. by apply Hr1 in E'.
    + exists (Markdown msg1 :: t1 ++ t'), m.
      split; [by rewrite app_assoc|]. cbn.
      by rewrite List.filter_app, He1, Ht'.
  - assert ((ydl_download w o1 url).2 = Completed) as E by (by apply Hr1).
    destruct (download w o2 url) as [t2 [ex|[]]]; cbn in *.
    + destruct (handler_shape ex) as (t' & m & -> & Ht' & Hd'). cbn.
      split_and!.
      * intros _. unfold downloads in *. by rewrite !omap_app, Hd1, Hd2, Hd'.
      * done.
      * split; [done|]. intros [_ E']. by apply Hr2 in E'.
      * exists (Markdown msg1 :: (t1 ++ t2) ++ t'), m.
        split; [cbn; f_equal; apply app_assoc|]. cbn.
        by rewrite !List.filter_app, He1, He2, Ht'.
    + split_and!.
      * intros _. unfold downloads in *. by rewrite !omap_app, Hd1, Hd2.
      * done.
      * split; [|done]. intros _. split; [done | by apply Hr2].
      * by rewrite !List.filter_app, He1, He2.
      * by rewrite app_comm_cons, (app_assoc _ t2), last_snoc.
Qed.

(** The [try] block, by branch. *)
Lemma download_body_cases w url fi path base opt :
  download_body w url fi path base opt =
  if Opt.merge_needed fi && bool_decide (opt = lit "merge") then
    download w (merged_opts w fi path base) url ;;
    emit (Markdown (lit "**" ++ mark_party
                      ++ lit " Download completed successfully!**")) ;;
    mret true
  else if Opt.merge_needed fi && bool_decide (opt = lit "separate") then
    emit (Markdown (lit "**" ++ mark_down
                      ++ lit " Downloading video and audio separately...**")) ;;
    download w (video_only_opts w fi path base) url ;;
    download w (audio_only_opts w path base) url ;;
    emit (Markdown (lit "**" ++ mark_party
                      ++ lit " Video and audio downloaded separately!**")) ;;
    mret true
  else
    download w (plain_opts w fi path base) url ;;
    emit (Markdown (lit "**" ++ mark_party
                      ++ lit " Download completed successfully!**")) ;;
    mret true.
Proof. reflexivity. Qed.

(** How the [try] block ends, whatever the branch. *)
Lemma download_body_run w url fi path base opt :
  let run := try_except (download_body w url fi path base opt) handler in
  downloads run.1 ≠ []
  ∧ (if run.2
     then List.filter is_st_error run.1 = []
          ∧ ∃ msg, last run.1 = Some (Markdown msg)
     else ∃ t m, run.1 = t ++ [StError m] ∧ List.filter is_st_error t = []).
Proof.
  cbn zeta. rewrite download_body_cases.
  destruct (Opt.merge_needed fi && bool_decide (opt = lit "merge")).
  - destruct (single_download_run w (merged_opts w fi path base) url
                (lit "**" ++ mark_party
                   ++ lit " Download completed successfully!**"))
      as (Hd & _ & Hsh).
    split; [by rewrite Hd|]. destruct (try_except _ _).2; [|done].
    destruct Hsh. eauto.
  - destruct (Opt.merge_needed fi && bool_decide (opt = lit "separate")).
    + destruct (separate_download_run w (video_only_opts w fi path base)
                  (audio_only_opts w path base) url
                  (lit "**" ++ mark_down
                     ++ lit " Downloading video and audio separately...**")
                  (lit "**" ++ mark_party
                     ++ lit " Video and audio downloaded separately!**"))
        as (Hd1 & Hd2 & Hres & Hsh).
      split.
      * destruct (ydl_download w (video_only_opts w fi path base) url).2 eqn:E.
        -- by rewrite Hd1.
        -- destruct Hd2 as [-> _]; done.
        -- destruct Hd2 as [-> _]; done.
      * destruct (try_except _ _).2; [|done]. destruct Hsh. eauto.
    + destruct (single_download_run w (plain_opts w fi path base) url
                  (lit "**" ++ mark_party
                     ++ lit " Download completed successfully!**"))
        as (Hd & _ & Hsh).
      split; [by rewrite Hd|]. destruct (try_except _ _).2; [|done].
      destruct Hsh. eauto.
Qed.

End DownloadMore.

(** X17.  For an entry that needs a merge and the merge option, the
    operation issues exactly one download call: the entry's format id
    followed by +bestaudio/best, written to the base name with the suffix
    _merged, and converted to mp4 by the post-processor; it returns success
    exactly when that call completes. *)
Theorem merge_policy_single_download
    (w : world) (url : pystr) (fi : Opt.t) (path : pystr)
    (title : option pystr) :
  Opt.merge_needed fi = true →
  makedirs w path = None → access_w w path = true →
  extract_title w url = inr title →
  let opts := merged_opts w fi path (base_name title) in
  format opts = Opt.format_id fi ++ lit "+bestaudio/best"
  ∧ postprocessors opts = [(lit "FFmpegVideoConvertor", lit "mp4")]
  ∧ downloads (download_video w url fi path (lit "merge")).1 = [opts]
  ∧ ((download_video w url fi path (lit "merge")).2 = true
     ↔ (ydl_download w opts url).2 = Completed).
Proof.
  intros Hm Hd Ha Ht opts. split; [done|]. split; [done|].
  rewrite (download_video_body _ _ _ _ _ _ Hd Ha Ht). cbn [fst snd].
  rewrite download_body_cases, Hm. cbn [andb].
  rewrite bool_decide_eq_true_2; [|done].
  destruct (single_download_run w opts url
              (lit "**" ++ mark_party
                 ++ lit " Download completed successfully!**"))
    as (H1 & H2 & _).
  split; [exact H1 | exact H2].
Qed.

Lemma merge_policy_single_download_witness :
  format <$> downloads
               (download_video calm_world some_url entry_137 some_dir
                  (lit "merge")).1
  = [lit "137+bestaudio/best"]
  ∧ (download_video calm_world some_url entry_137 some_dir (lit "merge")).2
    = true.
Proof.
  destruct (merge_policy_single_download calm_world some_url entry_137
              some_dir (Some (lit "My: video / title?"))
              eq_refl eq_refl eq_refl eq_refl) as (_ & _ & H1 & H2).
  split; [by rewrite H1 | by apply H2].
Defined.

(** X18.  For an entry that needs no merge, the merge option does not
    matter: the operation issues exactly one download call for the
    entry's format id, written to the base name, without post-processor,
    and returns success exactly when that call completes. *)
Theorem complete_entry_plain_download
    (w : world) (url : pystr) (fi : Opt.t) (path opt : pystr)
    (title : option pystr) :
  Opt.merge_needed fi = false →
  makedirs w path = None → access_w w path = true →
  extract_title w url = inr title →
  let opts := plain_opts w fi path (base_name title) in
  downloads (download_video w url fi path opt).1 = [opts]
  ∧ ((download_video w url fi path opt).2 = true
     ↔ (ydl_download w opts url).2 = Completed).
Proof.
  intros Hm Hd Ha Ht opts.
  rewrite (download_video_body _ _ _ _ _ _ Hd Ha Ht). cbn [fst snd].
  rewrite download_body_cases, Hm. cbn [andb].
  destruct (single_download_run w opts url
              (lit "**" ++ mark_party
                 ++ lit " Download completed successfully!**"))
    as (H1 & H2 & _).
  split; [exact H1 | exact H2].
Qed.

Lemma complete_entry_plain_download_witness :
  ∃ e, head (get_video_formats (Some (Some scenario_A)) false) = Some e
       ∧ format <$> downloads
                      (download_video calm_world some_url e some_dir
                         (lit "merge")).1
         = [lit "18"].
Proof.
  eexists. split; [vm_compute; reflexivity|].
  match goal with
  | |- context [download_video _ _ ?e _ _] =>
      destruct (complete_entry_plain_download calm_world some_url e some_dir
                  (lit "merge") (Some (lit "My: video / title?"))
                  eq_refl eq_refl eq_refl eq_refl) as [H _]
  end.
  by rewrite H.
Defined.

(** X19.  A download call is issued exactly when the destination
    directory could be made and is writable and the metadata could be
    fetched. *)
Theorem downloads_only_after_checks
    (w : world) (url : pystr) (fi : Opt.t) (path opt : pystr) :
  downloads (download_video w url fi path opt).1 ≠ []
  ↔ makedirs w path = None ∧ access_w w path = true
    ∧ ∃ title, extract_title w url = inr title.
Proof.
  split.
  - unfold download_video, get_video_info.
    destruct (makedirs w path); [done|].
    destruct (access_w w path); cbn [negb]; [|done].
    destruct (extract_title w url) as [err|title]; [done|]. eauto.
  - intros (Hd & Ha & title & Ht).
    rewrite (download_video_body _ _ _ _ _ _ Hd Ha Ht). cbn [fst snd].
    by destruct (download_body_run w url fi path (base_name title) opt).
Qed.

(** X20.  With the keep-separate option for an entry that needs a merge,
    the audio stream is requested only after the video stream has
    completed: when the video download fails it is the only call and the
    operation fails; and the operation succeeds exactly when both calls
    complete. *)
Theorem separate_needs_both_streams
    (w : world) (url : pystr) (fi : Opt.t) (path : pystr)
    (title : option pystr) :
  Opt.merge_needed fi = true →
  makedirs w path = None → access_w w path = true →
  extract_title w url = inr title →
  let video := video_only_opts w fi path (base_name title) in
  let audio := audio_only_opts w path (base_name title) in
  ((ydl_download w video url).2 ≠ Completed →
   downloads (download_video w url fi path (lit "separate")).1 = [video]
   ∧ (download_video w url fi path (lit "separate")).2 = false)
  ∧ ((download_video w url fi path (lit "separate")).2 = true
     ↔ (ydl_download w video url).2 = Completed
       ∧ (ydl_download w audio url).2 = Completed).
Proof.
  intros Hm Hd Ha Ht video audio.
  rewrite (download_video_body _ _ _ _ _ _ Hd Ha Ht). cbn [fst snd].
  rewrite download_body_cases, Hm. cbn [andb].
  rewrite bool_decide_eq_false_2; [|by vm_compute].
  rewrite bool_decide_eq_true_2; [|done].
  destruct (separate_download_run w video audio url
              (lit "**" ++ mark_down
                 ++ lit " Downloading video and audio separately...**")
              (lit "**" ++ mark_party
                 ++ lit " Video and audio downloaded separately!**"))
    as (_ & H2 & H3 & _).
  split; [exact H2 | exact H3].
Qed.

Lemma separate_needs_both_streams_witness :
  (download_video calm_world some_url entry_137 some_dir (lit "separate")).2
  = true.
Proof.
  destruct (separate_needs_both_streams calm_world some_url entry_137
              some_dir (Some (lit "My: video / title?"))
              eq_refl eq_refl eq_refl eq_refl) as [_ H].
  apply H. by split.
Defined.

(** X21.  Every run ends with one closing event: a failing run shows
    exactly one error message, as its last event; a successful run shows
    no error message and ends with a progress message. *)
Theorem one_closing_message
    (w : world) (url : pystr) (fi : Opt.t) (path opt : pystr) :
  if (download_video w url fi path opt).2
  then List.filter is_st_error (download_video w url fi path opt).1 = []
       ∧ ∃ msg, last (download_video w url fi path opt).1 = Some (Markdown msg)
  else ∃ t m, (download_video w url fi path opt).1 = t ++ [StError m]
              ∧ List.filter is_st_error t = [].
Proof.
  destruct (makedirs w path) as [err|] eqn:Hd.
  { unfold download_video. rewrite Hd. cbn. by eexists [], _. }
  destruct (access_w w path) eqn:Ha.
  2:{ unfold download_video. rewrite Hd, Ha. cbn. by eexists [], _. }
  destruct (extract_title w url) as [err|title] eqn:Ht.
  { unfold download_video, get_video_info. rewrite Hd, Ha, Ht. cbn.
    by eexists [_; _], _. }
  rewrite (download_video_body _ _ _ _ _ _ Hd Ha Ht). cbn [fst snd].
  destruct (download_body_run w url fi path (base_name title) opt)
    as [_ Hsh].
  destruct (try_except _ _) as [t r]. cbn [fst snd] in *.
  destruct r.
  - destruct Hsh as [Hf [msg Hl]]. split; [by cbn|].
    exists msg. destruct t; [done|]. by rewrite last_cons, Hl.
  - destruct Hsh as (t' & m & -> & Hf). exists (ExtractInfo url :: t'), m.
    split; [done | by cbn].
Qed.

(** ** The session *)

Section SessionLemmas.

Implicit Types (d acc : list (pystr * Opt.t)) (k : pystr) (v e : Opt.t).
Implicit Types (l formats : list Opt.t).

Lemma dict_get_set k' k v d :
  dict_get k' (dict_set k v d) = if decide (k' = k) then Some v else dict_get k' d.
Proof.
  induction d as [|[k0 v0] r IH]; simpl.
  - by destruct (decide (k' = k)).
  - destruct (decide (k = k0)) as [->|Hne]; simpl.
    + by destruct (decide (k' = k0)).
    + rewrite IH. destruct (decide (k' = k0)) as [->|?]; [|done].
      by rewrite decide_False.
Qed.

Lemma dict_set_keys k v d :
  (dict_set k v d).*1 = if decide (k ∈ d.*1) then d.*1 else d.*1 ++ [k].
Proof.
  induction d as [|[k0 v0] r IH].
  - rewrite decide_False; [done|]. intros H. by apply not_elem_of_nil in H.
  - cbn [dict_set]. rewrite fmap_cons. cbn [fst].
    destruct (decide (k = k0)) as [->|Hne].
    + rewrite decide_True; [done | by left].
    + rewrite fmap_cons, IH. cbn [fst].
      destruct (decide (k ∈ r.*1)) as [Hin|Hnin].
      * rewrite decide_True; [done | by right].
      * rewrite decide_False; [done|].
        intros [?|?]%elem_of_cons; done.
Qed.

Lemma format_options_get acc l k :
  dict_get k (fold_left (λ d fmt, dict_set (Opt.resolution fmt) fmt d) l acc)
  = match last (filter (λ e, Opt.resolution e = k) l) with
    | Some e => Some e
    | None => dict_get k acc
    end.
Proof.
  revert acc. induction l as [|e r IH]; intros acc; [done|].
  cbn [fold_left]. rewrite IH, dict_get_set, filter_cons.
  destruct (decide (Opt.resolution e = k)) as [<-|Hne].
  - rewrite !decide_True by done. rewrite last_cons.
    by destruct (last (filter _ r)).
  - rewrite !decide_False by done. done.
Qed.

Lemma format_options_keys_elem acc l k :
  k ∈ (fold_left (λ d fmt, dict_set (Opt.resolution fmt) fmt d) l acc).*1
  ↔ k ∈ acc.*1 ∨ k ∈ Opt.resolution <$> l.
Proof.
  revert acc. induction l as [|e r IH]; intros acc; cbn [fold_left].
  - rewrite fmap_nil, elem_of_nil. tauto.
  - rewrite IH, dict_set_keys, fmap_cons, elem_of_cons.
    destruct (decide (Opt.resolution e ∈ acc.*1)) as [Hin|Hnin].
    + split; [tauto|]. intros [?|[->|?]]; auto.
    + rewrite elem_of_app, list_elem_of_singleton. tauto.
Qed.

Lemma format_options_keys_NoDup acc l :
  NoDup acc.*1 →
  NoDup (fold_left (λ d fmt, dict_set (Opt.resolution fmt) fmt d) l acc).*1.
Proof.
  revert acc. induction l as [|e r IH]; intros acc Hnd; [done|].
  cbn [fold_left]. apply IH. rewrite dict_set_keys.
  destruct (decide (Opt.resolution e ∈ acc.*1)) as [Hin|Hnin]; [done|].
  apply NoDup_app. split; [done|]. split; [|apply NoDup_singleton].
  intros x Hx Hx'%list_elem_of_singleton. by subst x.
Qed.

Lemma format_options_keys_fresh acc l :
  NoDup (acc.*1 ++ (Opt.resolution <$> l)) →
  (fold_left (λ d fmt, dict_set (Opt.resolution fmt) fmt d) l acc).*1
  = acc.*1 ++ (Opt.resolution <$> l).
Proof.
  revert acc. induction l as [|e r IH]; intros acc Hnd; cbn [fold_left].
  - by rewrite fmap_nil, app_nil_r.
  - rewrite fmap_cons in *. apply NoDup_app in Hnd as (Hacc & Hdis & Hl).
    assert (Opt.resolution e ∉ acc.*1) as Hfresh.
    { intros Hin. apply (Hdis _ Hin). by left. }
    rewrite IH; rewrite dict_set_keys, decide_False by done.
    + by rewrite <- app_assoc.
    + rewrite <- app_assoc. cbn. apply NoDup_app. split; [done|].
      split; [exact Hdis | exact Hl].
Qed.

Lemma filter_label_nil l k :
  k ∉ Opt.resolution <$> l → filter (λ x, Opt.resolution x = k) l = [].
Proof.
  induction l as [|x r IH]; [done|].
  rewrite fmap_cons, not_elem_of_cons, filter_cons. intros [Hx Hr].
  rewrite decide_False by done. auto.
Qed.

Lemma filter_label_NoDup l e :
  NoDup (Opt.resolution <$> l) → e ∈ l →
  filter (λ x, Opt.resolution x = Opt.resolution e) l = [e].
Proof.
  induction l as [|x r IH]; [by intros _ ?%not_elem_of_nil|].
  rewrite fmap_cons, NoDup_cons, elem_of_cons, filter_cons.
  intros [Hx Hr] [->|He].
  - rewrite decide_True by done. by rewrite filter_label_nil.
  - rewrite decide_False; [auto|]. intros E. apply Hx. rewrite E.
    by apply list_elem_of_fmap_2.
Qed.

End SessionLemmas.


(** X22.  The dictionary from labels to formats that the session builds
    from a list of entries: its keys are pairwise distinct and are the
    labels of the list, and a label selects the last entry of the list
    that carries it. *)
Theorem selection_dictionary (formats : list Opt.t) (k : pystr) :
  dict_get k (format_options formats)
  = last (filter (λ e, Opt.resolution e = k) formats)
  ∧ NoDup (quality_options formats)
  ∧ (k ∈ quality_options formats ↔ k ∈ Opt.resolution <$> formats).
Proof.
  unfold quality_options, format_options. split_and!.
  - rewrite format_options_get. by destruct (last _).
  - apply format_options_keys_NoDup. constructor.
  - rewrite format_options_keys_elem. cbn. rewrite elem_of_nil. tauto.
Qed.

(** X23.  For a menu of [get_video_formats], the options of the quality
    selector are the labels of the menu, in the order of the menu, and
    each of them selects the entry that carries it: no entry is hidden by
    another. *)
Theorem every_menu_entry_selectable
    (formats : list Fmt.t) (show_all : bool) :
  quality_options (get_video_formats (Some (Some formats)) show_all)
  = Opt.resolution <$> get_video_formats (Some (Some formats)) show_all
  ∧ ∀ e, e ∈ get_video_formats (Some (Some formats)) show_all →
         dict_get (Opt.resolution e)
           (format_options (get_video_formats (Some (Some formats)) show_all))
         = Some e.
Proof.
  assert (NoDup (Opt.resolution
                   <$> get_video_formats (Some (Some formats)) show_all))
    as Hnd.
  { cbn [get_video_formats]. rewrite <- traced_menu_entries.
    rewrite <- list_fmap_compose. apply traced_menu_labels. }
  split.
  - unfold quality_options, format_options.
    by rewrite format_options_keys_fresh.
  - intros e He. unfold format_options.
    by rewrite format_options_get, (filter_label_NoDup _ _ Hnd He).
Qed.

(** X24.  For a format that needs a merge, the merge option that the
    session hands to the download is always merge or separate; without
    the merge tool it is separate; and with the tool and the radio button
    left on the option selected at first, it is merge only for the
    preference merge, so that the preference auto gives separate. *)
Theorem session_merge_option
    (ffmpeg_available : bool) (preference : pystr) (fi : Opt.t)
    (choice : pystr) :
  Opt.merge_needed fi = true →
  merge_option ffmpeg_available preference fi choice
    ∈ [lit "merge"; lit "separate"]
  ∧ (ffmpeg_available = false →
     merge_option ffmpeg_available preference fi choice = lit "separate")
  ∧ (ffmpeg_available = true →
     merge_choices !! merge_choice_index preference = Some choice →
     merge_option ffmpeg_available preference fi choice
     = if bool_decide (preference = lit "merge") then lit "merge"
       else lit "separate").
Proof.
  intros Hm. unfold merge_option. rewrite Hm. split_and!.
  - destruct ffmpeg_available; [|set_solver].
    destruct (contains _ choice); set_solver.
  - by intros ->.
  - intros -> Hc. unfold merge_choice_index in Hc.
    destruct (bool_decide (preference = lit "merge"));
      cbn in Hc; by injection Hc as <-.
Qed.

Lemma session_merge_option_witness :
  merge_option true (merge_preference true (lit "auto")) entry_137
    (lit "Keep as separate files") = lit "separate".
Proof.
  destruct (session_merge_option true (merge_preference true (lit "auto"))
              entry_137 (lit "Keep as separate files") eq_refl)
    as (_ & _ & H).
  by rewrite H.
Defined.



(** ** Metadata, the merge tool probe and the progress hook *)

Lemma first_line_split (s : pystr) :
  (10%N ∉ first_line s)
  ∧ (s = first_line s ∨ ∃ rest, s = first_line s ++ 10%N :: rest).
Proof.
  induction s as [|c r [IH1 IH2]]; simpl.
  - split; [apply not_elem_of_nil | by left].
  - destruct (c =? 10)%N eqn:E.
    + apply N.eqb_eq in E as ->. split; [apply not_elem_of_nil|].
      right. by exists r.
    + apply N.eqb_neq in E. split.
      * rewrite not_elem_of_cons. split; [done | exact IH1].
      * destruct IH2 as [IH2|[rest IH2]].
        -- left. by rewrite <- IH2.
        -- right. exists rest. by rewrite IH2 at 1.
Qed.

Lemma basename_from_split (acc s : pystr) :
  (47%N ∉ acc) →
  (47%N ∉ basename_from acc s)
  ∧ (acc ++ s = basename_from acc s
     ∨ ∃ dir, acc ++ s = dir ++ 47%N :: basename_from acc s).
Proof.
  revert acc. induction s as [|c r IH]; intros acc Hacc; simpl.
  - split; [done|]. left. by rewrite app_nil_r.
  - destruct (c =? 47)%N eqn:E.
    + apply N.eqb_eq in E as ->.
      destruct (IH [] (not_elem_of_nil _)) as [H1 [H2|[dir H2]]].
      * split; [done|]. right. exists acc. simpl in H2. by rewrite <- H2.
      * split; [done|]. right. exists (acc ++ 47%N :: dir). simpl in H2.
        rewrite H2 at 1. by rewrite <- app_assoc.
    + apply N.eqb_neq in E.
      destruct (IH (acc ++ [c])) as [H1 H2].
      { rewrite not_elem_of_app, not_elem_of_cons. split_and!; try done.
        apply not_elem_of_nil. }
      split; [done|]. by rewrite <- app_assoc in H2.
Qed.

(** X26.  The description kept for display is empty exactly when the
    video has no description (absent or empty); otherwise it is the first
    200 characters of the description followed by three dots, also when
    nothing was cut, so that it never has more than 203 characters. *)
Theorem description_for_display (info : Info.raw) :
  (Info.description (Info.video_info info) = []
   ↔ truthy_str (Info.raw_description info) = false)
  ∧ (length (Info.description (Info.video_info info)) ≤ 203)%nat
  ∧ ∀ text, Info.raw_description info = Some text → text ≠ [] →
      Info.description (Info.video_info info) = take 200 text ++ lit "..."
      ∧ ((length text ≤ 200)%nat →
         Info.description (Info.video_info info) = text ++ lit "...").
Proof.
  unfold Info.video_info, Info.short_description. cbn [Info.description].
  split_and!.
  - destruct (truthy_str (Info.raw_description info)); [|done].
    split; [|done]. intros H. by apply app_eq_nil in H as [_ ?].
  - destruct (truthy_str (Info.raw_description info)); [|simpl; lia].
    rewrite length_app, length_take.
    change (length (lit "...")) with 3%nat. lia.
  - intros text -> Hne. destruct text as [|c r]; [done|]. cbn [truthy_str default].
    split; [done|]. intros Hn. by rewrite take_ge.
Qed.

(** X27.  The probe reports the merge tool as available exactly when the
    command ran and returned code 0; the text it then reports is the first
    line of the output: it holds no line break, and the output is that
    text alone or that text, a line break and more.  Otherwise it reports
    one of two fixed messages. *)
Theorem ffmpeg_probe (r : run_result) :
  ((check_ffmpeg r).1 = true ↔ ∃ stdout, r = RunDone 0 stdout)
  ∧ (∀ stdout, r = RunDone 0 stdout →
       (10%N ∉ (check_ffmpeg r).2)
       ∧ (stdout = (check_ffmpeg r).2
          ∨ ∃ rest, stdout = (check_ffmpeg r).2 ++ 10%N :: rest))
  ∧ ((check_ffmpeg r).1 = false →
     (check_ffmpeg r).2
       ∈ [lit "FFmpeg not working properly"; lit "FFmpeg not found"]).
Proof.
  split_and!.
  - destruct r as [|code out]; simpl.
    + split; [done | by intros [? ?]].
    + destruct (code =? 0) eqn:E; simpl.
      * apply Z.eqb_eq in E as ->. split; [by exists out | done].
      * apply Z.eqb_neq in E. split; [done|]. by intros [? [= -> _]].
  - intros stdout ->. cbn. apply first_line_split.
  - destruct r as [|code out]; simpl; [set_solver|].
    destruct (code =? 0); simpl; [done | set_solver].
Qed.

(** X28.  The file name shown by the progress hook is the last component
    of the reported path: it holds no slash, and the path is that name
    alone or a directory part, a slash and that name. *)
Theorem progress_file_name (path : pystr) :
  (47%N ∉ basename path)
  ∧ (path = basename path ∨ ∃ dir, path = dir ++ 47%N :: basename path)
  ∧ progress_hook (Downloading None None None (Some path))
    = [Markdown (lit "**" ++ mark_down ++ lit " Downloading "
                   ++ basename path ++ lit "...**")].
Proof.
  destruct (basename_from_split [] path (not_elem_of_nil _)) as [H1 H2].
  split; [exact H1|]. split; [exact H2 | reflexivity].
Qed.
